(** * Round configuration helpers (src/utils/rodadaConfig.ts)

    A shallow embedding of the five exported functions of the module

      obterConfigRodada, salvarConfigRodada, salvarLimiteRodadas,
      obterLimiteRodadas, verificarSeExcedeuLimiteRodadas

    together with the pieces of JavaScript and of the remote store they
    rely on:

    - [JS]: the number values the module handles, [parseInt] and
      [Number.prototype.toString] as ECMAScript defines them;
    - [Store]: the three tables, the replies of the query builder and an
      asynchronous computation type with exceptions;
    - [RodadaConfig]: the functions themselves, statement by statement.

    Console output is not modelled: it has no influence on any result.
    Strings are sequences of 8-bit code units. Numbers are the integer-valued
    doubles with NaN and the infinities, which is all that [parseInt], a
    row count or an integer column can give; [parseInt] is taken to read
    every digit exactly. Calls run one after the other: nothing else writes
    to the store in between. *)

From Stdlib Require Import ZArith Ascii String Lia Bool.
From stdpp Require Import base option list sorting gmap strings.

Local Open Scope string_scope.
Local Open Scope Z_scope.

(** ** JavaScript values *)

Module JS.

(** The numbers of this module are counts and limits: the integer-valued
    doubles, the two infinities and NaN. [Int z] stands for the double whose
    value is the integer [z]; the two zeros are identified (they compare
    equal and print the same). *)
Inductive number : Type :=
  | NaN
  | Infinity (negative : bool)
  | Int (z : Z).

#[global] Instance number_eq_dec : EqDecision number.
Proof. solve_decision. Defined.

(** Rounding of a real integer to the nearest double, ties to even: 53
    significant bits are kept, and what reaches 2^1024 overflows. *)
Definition roundMagnitude (m : Z) : Z :=
  if m <? 2 ^ 53 then m
  else
    let e := Z.log2 m - 52 in
    let q := m / 2 ^ e in
    let r := m mod 2 ^ e in
    let half := 2 ^ (e - 1) in
    let q' := if (half <? r) || ((r =? half) && Z.odd q) then q + 1 else q in
    q' * 2 ^ e.

Definition F (z : Z) : number :=
  let m := roundMagnitude (Z.abs z) in
  if 2 ^ 1024 <=? m then Infinity (z <? 0) else Int (Z.sgn z * m).

(** A number the type can hold and a double can too. *)
Definition representable (z : Z) : Prop := F z = Int z.

(** [a >= b] on numbers: false as soon as one side is NaN. *)
Definition ge (a b : number) : bool :=
  match a, b with
  | NaN, _ | _, NaN => false
  | Infinity false, _ => true
  | _, Infinity true => true
  | Infinity true, _ => false
  | _, Infinity false => false
  | Int x, Int y => y <=? x
  end.

(** *** Characters *)

Definition charCode (c : ascii) : Z := Z.of_N (N_of_ascii c).

(** White space and line terminators among the code units below 256:
    TAB, LF, VT, FF, CR, SP and NBSP. *)
Definition isWhiteSpace (c : ascii) : bool :=
  let n := charCode c in
  ((9 <=? n) && (n <=? 13)) || (n =? 32) || (n =? 160).

(** The value of a character as a digit: 0-9, then a-z and A-Z for 10-35. *)
Definition digitValue (c : ascii) : option Z :=
  let n := charCode c in
  if (48 <=? n) && (n <=? 57) then Some (n - 48)
  else if (97 <=? n) && (n <=? 122) then Some (n - 87)
  else if (65 <=? n) && (n <=? 90) then Some (n - 55)
  else None.

Definition radixDigit (R : Z) (c : ascii) : option Z :=
  match digitValue c with
  | Some d => if d <? R then Some d else None
  | None => None
  end.

Definition digitChar (d : Z) : ascii := ascii_of_N (Z.to_N (48 + d)).

(** *** parseInt(string), radix undefined *)

Fixpoint trimStart (s : string) : string :=
  match s with
  | String c s' => if isWhiteSpace c then trimStart s' else s
  | EmptyString => EmptyString
  end.

(** The digits of the longest prefix made of radix-R digits. *)
Fixpoint digitPrefix (R : Z) (s : string) : list Z :=
  match s with
  | String c s' =>
      match radixDigit R c with
      | Some d => d :: digitPrefix R s'
      | None => []
      end
  | EmptyString => []
  end.

Definition mathInt (R : Z) (ds : list Z) : Z :=
  fold_left (fun acc d => acc * R + d) ds 0.

Definition isX (c : ascii) : bool := (charCode c =? 120) || (charCode c =? 88).

(** A leading minus or plus sign is taken off; minus makes the sign -1. *)
Definition splitSign (s : string) : Z * string :=
  match s with
  | String c rest =>
      if charCode c =? 45 then (-1, rest)
      else if charCode c =? 43 then (1, rest)
      else (1, s)
  | EmptyString => (1, s)
  end.

(** With no radix given, a leading 0x or 0X is taken off and makes it 16. *)
Definition stripPrefix (s : string) : Z * string :=
  match s with
  | String c0 (String c1 rest) =>
      if (charCode c0 =? 48) && isX c1 then (16, rest) else (10, s)
  | _ => (10, s)
  end.

Definition parseInt (inputString : string) : number :=
  let '(sign, s1) := splitSign (trimStart inputString) in
  let '(R, s2) := stripPrefix s1 in
  match digitPrefix R s2 with
  | [] => NaN
  | ds => F (sign * mathInt R ds)
  end.

(** *** Number.prototype.toString(), radix 10 *)

(** The decimal digits of a non-negative integer, most significant first. *)
Fixpoint decimalDigits (fuel : nat) (v : Z) (acc : string) : string :=
  match fuel with
  | O => acc
  | S fuel' =>
      let acc' := String (digitChar (v mod 10)) acc in
      if v / 10 =? 0 then acc' else decimalDigits fuel' (v / 10) acc'
  end.

Definition decimal (v : Z) : string :=
  decimalDigits (S (Z.to_nat (Z.log2 v))) v EmptyString.

(** The exponent of the leading decimal digit: 10^e <= v < 10^(e+1). *)
Fixpoint log10 (fuel : nat) (v : Z) : Z :=
  match fuel with
  | O => 0
  | S fuel' => if v <? 10 then 0 else 1 + log10 fuel' (v / 10)
  end.

Definition exponent10 (v : Z) : Z := log10 (S (Z.to_nat (Z.log2 v))) v.

Definition roundsTo (x c : Z) : bool := bool_decide (F c = Int x).

(** The decimal s * 10^(n-k) with the fewest digits k that still rounds to
    the double x, and among those the closest to x (the even one on a
    tie). [p] is the weight 10^(n-k) of the last digit kept; the candidates
    with k digits are x rounded down and up to a multiple of p. *)
Fixpoint shortest (fuel : nat) (x p : Z) : Z :=
  match fuel with
  | O => x
  | S fuel' =>
      let lo := x / p * p in
      let hi := lo + p in
      match roundsTo x lo, roundsTo x hi with
      | true, true =>
          if x - lo <? hi - x then lo
          else if hi - x <? x - lo then hi
          else if Z.even (x / p) then lo else hi
      | true, false => lo
      | false, true => hi
      | false, false => if p =? 1 then x else shortest fuel' x (p / 10)
      end
  end.

Definition shortestDecimal (x : Z) : Z :=
  let e := exponent10 x in
  shortest (S (Z.to_nat e)) x (10 ^ e).

Fixpoint stripZeros (fuel : nat) (v : Z) : Z :=
  match fuel with
  | O => v
  | S fuel' => if (v mod 10 =? 0) && negb (v =? 0) then stripZeros fuel' (v / 10) else v
  end.

(** d.ddd e+NN, for a value of more than 21 digits. *)
Definition exponential (c : Z) : string :=
  let s := stripZeros (Z.to_nat (exponent10 c)) c in
  match decimal s with
  | String d EmptyString => String d ("e+" +:+ decimal (exponent10 c))
  | String d rest => String d ("." +:+ rest +:+ "e+" +:+ decimal (exponent10 c))
  | EmptyString => EmptyString
  end.

Definition positiveToString (x : Z) : string :=
  let c := shortestDecimal x in
  if c <? 10 ^ 21 then decimal c else exponential c.

Definition toString (x : number) : string :=
  match x with
  | NaN => "NaN"
  | Infinity false => "Infinity"
  | Infinity true => "-Infinity"
  | Int z =>
      if z =? 0 then "0"
      else if z <? 0 then "-" +:+ positiveToString (- z)
      else positiveToString z
  end.

End JS.

(** ** The remote store *)

Module Store.

(** *** Tables *)

(** A row of table [configuracoes]; the unique column [chave] is the key
    under which the row is kept. *)
Record configuracao : Type := Configuracao {
  cfg_valor : string;
  cfg_descricao : string
}.

(** A row of table [historico_sabores_rodada]. *)
Record historico_sabor : Type := HistoricoSabor {
  hist_rodada_id : string;
  hist_ordem : Z
}.

(** A row of table [rodadas]. *)
Record rodada : Type := Rodada {
  rodada_numero : Z;
  rodada_status : string
}.

(** Modelled from the spec: the store behind the supabase client, which is
    no part of the source file. Section 3 gives the entities and the unique
    key of a configuration entry, section 6 the three collections. *)
Record database : Type := Database {
  configuracoes : gmap string configuracao;
  historico_sabores_rodada : list historico_sabor;
  rodadas : list rodada
}.

(** *** What a request resolves to *)

Record PostgrestError : Type := mkError {
  code : string;
  message : string
}.

(** What [.single()] reports when no row matches. *)
Definition not_found : PostgrestError :=
  {| code := "PGRST116"; message := "JSON object requested, multiple (or no) rows returned" |}.

(** The [{ data, error }] object a request resolves to. *)
Record reply (A : Type) : Type := Reply {
  data : option A;
  error : option PostgrestError
}.
Arguments Reply {A} _ _.
Arguments data {A} _.
Arguments error {A} _.

(** What a JavaScript [throw] or a rejected promise carries. *)
Inductive exn : Type :=
  | PostgrestFailure (e : PostgrestError)
  | Rejection (reason : string).

(** The rows as a [select] hands them over. *)
Record linha_valor : Type := LinhaValor { valor : string }.
Record linha_ordem : Type := LinhaOrdem { ordem : JS.number }.
Record linha_rodada : Type := LinhaRodada { numero : JS.number; status : string }.

(** *** The store at work *)

(** Modelled from the spec: how the store treats one request (sections 5
    and 7). It answers it from its tables, it reports a storage error in the
    reply, or the request fails outright and the awaited promise is
    rejected. *)
Inductive behaviour : Type :=
  | Answers
  | Fails (e : PostgrestError)
  | Rejects (x : exn).

(** The tables, and how the store will treat the coming requests, in order
    (it answers once the list is used up). *)
Record world : Type := World {
  db : database;
  schedule : list behaviour
}.

Inductive completion (A : Type) : Type :=
  | Returned (a : A)
  | Thrown (x : exn).
Arguments Returned {A} _.
Arguments Thrown {A} _.

(** An [async] function body: it runs against the world, and completes
    normally or by throwing. *)
Definition Async (A : Type) : Type := world -> completion A * world.

#[global] Instance async_ret : MRet Async :=
  fun A (a : A) w => (Returned a, w).

#[global] Instance async_bind : MBind Async :=
  fun A B (k : A -> Async B) (m : Async A) w =>
    match m w with
    | (Returned a, w') => k a w'
    | (Thrown x, w') => (Thrown x, w')
    end.

Definition throw {A : Type} (x : exn) : Async A :=
  fun w => (Thrown x, w).

Definition try_catch {A : Type} (body : Async A) (handler : exn -> Async A) : Async A :=
  fun w =>
    match body w with
    | (Returned a, w') => (Returned a, w')
    | (Thrown x, w') => handler x w'
    end.

(** The behaviour that meets the i-th coming request. *)
Definition behaviour_at (i : nat) (w : world) : behaviour :=
  default Answers (schedule w !! i).

(** Modelled from the spec: one awaited request, which resumes with a
    result or an error (section 5). [honest] gives the reply computed from
    the tables, and the tables after it; a request that fails leaves the
    tables as they were. *)
Definition request {A : Type} (honest : database -> reply A * database) : Async (reply A) :=
  fun w =>
    let rest := tail (schedule w) in
    match behaviour_at 0 w with
    | Answers =>
        let '(r, d) := honest (db w) in
        (Returned r, {| db := d; schedule := rest |})
    | Fails e =>
        (Returned {| data := None; error := Some e |},
         {| db := db w; schedule := rest |})
    | Rejects x =>
        (Thrown x, {| db := db w; schedule := rest |})
    end.

(** *** The queries of the module *)

(** Modelled from the spec: the point lookup by unique key (section 6) behind
    from('configuracoes').select('valor').eq('chave', chave).single();
    no row is the not-found condition, reported with code PGRST116. *)
Definition select_valor_single (chave : string) : Async (reply linha_valor) :=
  request (fun d =>
    (match configuracoes d !! chave with
     | Some c => {| data := Some {| valor := cfg_valor c |}; error := None |}
     | None => {| data := None; error := Some not_found |}
     end, d)).

Definition ordem_desc (a b : historico_sabor) : Prop := hist_ordem b <= hist_ordem a.
Definition numero_desc (a b : rodada) : Prop := rodada_numero b <= rodada_numero a.

#[global] Instance ordem_desc_dec : RelDecision ordem_desc.
Proof. intros a b. unfold ordem_desc. apply _. Defined.
#[global] Instance numero_desc_dec : RelDecision numero_desc.
Proof. intros a b. unfold numero_desc. apply _. Defined.

Definition da_rodada (rodadaId : string) (h : historico_sabor) : Prop :=
  hist_rodada_id h = rodadaId.

#[global] Instance da_rodada_dec rodadaId h : Decision (da_rodada rodadaId h).
Proof. unfold da_rodada. apply _. Defined.

(** Modelled from the spec: the records of a round, ordered descending by
    [ordem] and limited to 1 row (section 6), behind
    from('historico_sabores_rodada').select('ordem').eq('rodada_id', id)
      .order('ordem', { ascending: false }).limit(1);
    [ordem] is an integer column, whose values are numbers as they are. *)
Definition select_ordem_top (rodadaId : string) : Async (reply (list linha_ordem)) :=
  request (fun d =>
    let rows := filter (da_rodada rodadaId) (historico_sabores_rodada d) in
    ({| data := Some ((fun h => {| ordem := JS.Int (hist_ordem h) |})
                        <$> take 1 (merge_sort ordem_desc rows));
        error := None |}, d)).

(** Modelled from the spec: the ordered multi-row fetch (section 6) behind
    from('rodadas').select('numero, status').order('numero', { ascending: false }) *)
Definition select_rodadas : Async (reply (list linha_rodada)) :=
  request (fun d =>
    ({| data := Some ((fun r => {| numero := JS.Int (rodada_numero r);
                                   status := rodada_status r |})
                        <$> merge_sort numero_desc (rodadas d));
        error := None |}, d)).

(** Modelled from the spec: the upsert by unique key, last write wins
    (sections 3 and 6), behind
    from('configuracoes').upsert({ chave, valor, descricao }, { onConflict: 'chave' }) *)
Definition upsert_configuracao (chave valor descricao : string) : Async (reply unit) :=
  request (fun d =>
    ({| data := None; error := None |},
     {| configuracoes :=
          <[chave := {| cfg_valor := valor; cfg_descricao := descricao |}]> (configuracoes d);
        historico_sabores_rodada := historico_sabores_rodada d;
        rodadas := rodadas d |})).

End Store.

(** ** The module *)

Module RodadaConfig.
Import JS Store.

Record RodadaConfig : Type := mkRodadaConfig {
  numeroPizzasPlanejadas : number;
  tempoLimitePorPizza : number
}.

#[global] Instance RodadaConfig_eq_dec : EqDecision RodadaConfig.
Proof. solve_decision. Defined.

Definition chaveRodada (rodadaId : string) : string :=
  "rodada_" +:+ rodadaId +:+ "_pizzas_planejadas".

(** if (error) throw error; *)
Definition throw_if_error {A : Type} (r : reply A) : Async unit :=
  match error r with
  | Some e => throw (PostgrestFailure e)
  | None => mret tt
  end.

(** The [try] block of [obterConfigRodada]. *)
Definition obterConfigRodada_try (rodadaId : string) : Async (option RodadaConfig) :=
  r1 ← select_valor_single (chaveRodada rodadaId);
  match error r1, data r1 with
  | None, Some configEspecifica =>
      let numeroPizzas := parseInt (valor configEspecifica) in
      mret (Some {| numeroPizzasPlanejadas := numeroPizzas;
                    tempoLimitePorPizza := Int 0 |})
  | _, _ =>
  r2 ← select_valor_single "pizzas_planejadas_padrao";
  match error r2, data r2 with
  | None, Some configGlobal =>
      let numeroPizzas := parseInt (valor configGlobal) in
      mret (Some {| numeroPizzasPlanejadas := numeroPizzas;
                    tempoLimitePorPizza := Int 0 |})
  | _, _ =>
  r3 ← select_ordem_top rodadaId;
  match error r3, data r3 with
  | None, Some (primeiro :: _) =>
      let numeroPizzas := ordem primeiro in
      mret (Some {| numeroPizzasPlanejadas := numeroPizzas;
                    tempoLimitePorPizza := Int 0 |})
  | _, _ =>
      mret (Some {| numeroPizzasPlanejadas := Int 5;
                    tempoLimitePorPizza := Int 0 |})
  end end end.

Definition obterConfigRodada (rodadaId : string) : Async (option RodadaConfig) :=
  try_catch (obterConfigRodada_try rodadaId)
    (fun _ => mret (Some {| numeroPizzasPlanejadas := Int 5;
                            tempoLimitePorPizza := Int 0 |})).

Definition salvarConfigRodada (rodadaId : string) (numeroPizzas : number) : Async unit :=
  try_catch
    (r ← upsert_configuracao (chaveRodada rodadaId) (toString numeroPizzas)
          ("Número de pizzas planejadas para a rodada " +:+ rodadaId);
     throw_if_error r)
    (fun error => throw error).

Definition salvarLimiteRodadas (numeroRodadas : number) : Async unit :=
  try_catch
    (r ← upsert_configuracao "limite_total_rodadas" (toString numeroRodadas)
          "Limite máximo de rodadas permitidas no jogo";
     throw_if_error r)
    (fun error => throw error).

Definition obterLimiteRodadas : Async number :=
  try_catch
    (r ← select_valor_single "limite_total_rodadas";
     _ ← match error r with
         | Some e =>
             if negb (String.eqb (code e) "PGRST116")
             then throw (PostgrestFailure e) else mret tt
         | None => mret tt
         end;
     match data r with
     | Some linha =>
         let limite := parseInt (valor linha) in
         mret limite
     | None => mret (Int 5)
     end)
    (fun _ => mret (Int 5)).

Record Verificacao : Type := mkVerificacao {
  excedeu : bool;
  totalRodadas : number;
  limite : number
}.

Definition finalizada (r : linha_rodada) : Prop := status r = "finalizada".

#[global] Instance finalizada_dec r : Decision (finalizada r).
Proof. unfold finalizada. apply _. Defined.

(** array.length, as a number *)
Definition comprimento {A : Type} (l : list A) : number :=
  Int (Z.of_nat (length l)).

Definition verificarSeExcedeuLimiteRodadas : Async Verificacao :=
  try_catch
    (limite ← obterLimiteRodadas;
     r ← select_rodadas;
     _ ← throw_if_error r;
     let totalRodadas :=
       match data r with Some rodadas => comprimento rodadas | None => Int 0 end in
     let rodadasFinalizadas :=
       match data r with
       | Some rodadas => comprimento (filter finalizada rodadas)
       | None => Int 0
       end in
     let excedeu := ge rodadasFinalizadas limite in
     mret {| excedeu := excedeu;
             totalRodadas := rodadasFinalizadas;
             limite := limite |})
    (fun _ => mret {| excedeu := false; totalRodadas := Int 0; limite := Int 5 |}).

End RodadaConfig.

(** ** Notions the properties are stated with *)

Module Spec.
Import JS Store RodadaConfig.

(** *** Strings of digits *)

Definition digit (d : Z) : Prop := 0 <= d <= 9.

(** The string that spells a list of digits. *)
Definition digitsToString (ds : list Z) : string :=
  foldr (fun d s => String (digitChar d) s) EmptyString ds.

Definition isDigit (c : ascii) : bool := (48 <=? charCode c) && (charCode c <=? 57).

Fixpoint allDigits (s : string) : bool :=
  match s with
  | String c rest => isDigit c && allDigits rest
  | EmptyString => true
  end.

(** The decimal numeral of a positive integer, as [toString] would write
    it: a digit from 1 to 9, then digits, 308 characters at most. *)
Definition numeralPositivo (s : string) : bool :=
  match s with
  | String c rest =>
      (49 <=? charCode c) && (charCode c <=? 57) && allDigits rest
      && (Z.of_nat (String.length rest) <? 308)
  | EmptyString => false
  end.

(** *** Rows and tables *)

(** The greatest element of a list of integers, if it has one. *)
Definition maximum (l : list Z) : option Z :=
  foldr (fun x acc => Some (from_option (Z.max x) x acc)) None l.

(** The sequence numbers recorded for a round. *)
Definition ordens (rodadaId : string) (d : database) : list Z :=
  hist_ordem <$> filter (da_rodada rodadaId) (historico_sabores_rodada d).

(** A round of the table that is finalised. *)
Definition rodada_finalizada (r : rodada) : Prop := rodada_status r = "finalizada".

#[global] Instance rodada_finalizada_dec r : Decision (rodada_finalizada r).
Proof. unfold rodada_finalizada. apply _. Defined.

(** [d'] differs from [d] at most in the configuration entry [chave]. *)
Definition so_muda (chave : string) (d d' : database) : Prop :=
  (forall k, k <> chave -> configuracoes d' !! k = configuracoes d !! k) /\
  historico_sabores_rodada d' = historico_sabores_rodada d /\
  rodadas d' = rodadas d.

Definition descricaoRodada (rodadaId : string) : string :=
  "Número de pizzas planejadas para a rodada " +:+ rodadaId.

(** *** Results *)

Definition padrao : RodadaConfig :=
  {| numeroPizzasPlanejadas := Int 5; tempoLimitePorPizza := Int 0 |}.


(** The chain in the words of the specification: the value of the first
    source that is available, in the order per-round entry, global entry,
    greatest recorded sequence number, and 5 when there is none. *)
Definition primeiraFonte (especifica global : option string) (historico : option Z) : number :=
  match especifica, global, historico with
  | Some v, _, _ => parseInt v
  | None, Some v, _ => parseInt v
  | None, None, Some m => Int m
  | None, None, None => Int 5
  end.

(** What the i-th request of a call lets the caller see of a source: what
    the tables hold when the store answers, nothing when it reports an
    error. *)
Definition fonte_config (i : nat) (chave : string) (w : world) : option string :=
  match behaviour_at i w with
  | Answers => cfg_valor <$> configuracoes (db w) !! chave
  | _ => None
  end.

Definition fonte_historico (i : nat) (rodadaId : string) (w : world) : option Z :=
  match behaviour_at i w with
  | Answers => maximum (ordens rodadaId (db w))
  | _ => None
  end.

Definition sem_rejeicao (i : nat) (w : world) : Prop :=
  forall x, behaviour_at i w <> Rejects x.

(** *** Some worlds *)

Definition mundo_rejeita : world :=
  {| db := {| configuracoes := {["rodada_r1_pizzas_planejadas" := Configuracao "9" "teste"]};
              historico_sabores_rodada := [];
              rodadas := [] |};
     schedule := [Rejects (Rejection "fetch failed")] |}.

Definition mundo_limite : world :=
  {| db := {| configuracoes := {["limite_total_rodadas" := Configuracao "3" "limite"]};
              historico_sabores_rodada := [];
              rodadas := [Rodada 1 "finalizada"; Rodada 2 "finalizada";
                          Rodada 3 "finalizada"; Rodada 4 "criada"] |};
     schedule := [] |}.


Definition mundo_historico : world :=
  {| db := {| configuracoes := {["limite_total_rodadas" := Configuracao "3" "limite"]};
              historico_sabores_rodada :=
                [HistoricoSabor "r1" 2; HistoricoSabor "r1" 7; HistoricoSabor "r2" 9];
              rodadas := [] |};
     schedule := [] |}.

Definition mundo_doze : world :=
  {| db := {| configuracoes := {["rodada_r1_pizzas_planejadas" := Configuracao "12" "teste"]};
              historico_sabores_rodada := [HistoricoSabor "r1" 3];
              rodadas := [] |};
     schedule := [Rejects (Rejection "fetch failed")] |}.

Definition mundo_erro_global : world :=
  {| db := {| configuracoes :=
                <["rodada_r1_pizzas_planejadas" := Configuracao "9" "teste"]>
                  {["pizzas_planejadas_padrao" := Configuracao "8" "teste"]};
              historico_sabores_rodada := [HistoricoSabor "r1" 4];
              rodadas := [] |};
     schedule := [Fails (mkError "500" "down")] |}.


Definition mundo_vazio : world :=
  {| db := {| configuracoes := ∅; historico_sabores_rodada := []; rodadas := [] |};
     schedule := [] |}.

End Spec.

(** ** Further notions: stores that grow, limits as read *)

Module Growth.
Import JS Store RodadaConfig Spec.

(** The store with one more row in table [rodadas]. *)
Definition com_rodada (r : rodada) (d : database) : database :=
  {| configuracoes := configuracoes d;
     historico_sabores_rodada := historico_sabores_rodada d;
     rodadas := r :: rodadas d |}.

(** The store with one more row in table [historico_sabores_rodada]. *)
Definition com_historico (h : historico_sabor) (d : database) : database :=
  {| configuracoes := configuracoes d;
     historico_sabores_rodada := h :: historico_sabores_rodada d;
     rodadas := rodadas d |}.

(** How many rounds of the table are finalised. *)
Definition finalizadas (d : database) : Z :=
  Z.of_nat (length (filter rodada_finalizada (rodadas d))).

(** The limit [obterLimiteRodadas] returns in a world. *)
Definition limite_lido (w : world) : number :=
  match (obterLimiteRodadas w).1 with
  | Returned n => n
  | Thrown _ => Int 5
  end.

(** A number that is not finite: NaN or an infinity. *)
Definition nao_finito (n : number) : Prop :=
  match n with
  | Int _ => False
  | _ => True
  end.

(** A string of white space only. *)
Fixpoint soEspacos (s : string) : bool :=
  match s with
  | String c rest => isWhiteSpace c && soEspacos rest
  | EmptyString => true
  end.

(** A string that does not begin with a decimal digit. *)
Definition semDigitoInicial (s : string) : bool :=
  match s with
  | String c _ => negb (isDigit c)
  | EmptyString => true
  end.

(** A string with no number to read at its start: it is empty, or begins
    with a character that is no digit, no sign and no white space. *)
Definition semNumero (s : string) : bool :=
  match s with
  | String c _ =>
      negb (isDigit c) && negb (isWhiteSpace c)
      && negb (charCode c =? 45) && negb (charCode c =? 43)
  | EmptyString => true
  end.

(** The sign [toString] writes before the digits of an integer. *)
Definition sinal (z : Z) : string := if z <? 0 then "-" else EmptyString.

(** A string in exponent notation with leading digit [d]: the digit, then a
    decimal point or the letter e, then the rest. *)
Definition notacaoExpoente (d : Z) (s : string) : Prop :=
  exists c1 rest,
    s = String (digitChar d) (String c1 rest) /\ (c1 = "."%char \/ c1 = "e"%char).

(** *** More worlds *)

Definition mundo_limite_texto : world :=
  {| db := {| configuracoes :=
                {["limite_total_rodadas" := Configuracao "cinco" "limite"]};
              historico_sabores_rodada := [];
              rodadas := rodadas (db mundo_limite) |};
     schedule := [] |}.

Definition mundo_limite_negativo : world :=
  {| db := {| configuracoes :=
                {["limite_total_rodadas" := Configuracao "-2" "limite"]};
              historico_sabores_rodada := [];
              rodadas := [] |};
     schedule := [] |}.

Definition mundo_texto : world :=
  {| db := {| configuracoes :=
                <["rodada_r1_pizzas_planejadas" := Configuracao " 12 pizzas" "teste"]>
                  {["limite_total_rodadas" := Configuracao "7.5" "limite"]};
              historico_sabores_rodada := [];
              rodadas := [] |};
     schedule := [] |}.

End Growth.

(** ** Facts about numbers and their strings *)

Module JSFacts.
Import JS Spec.

(** *** Rounding *)

Lemma roundMagnitude_small m : m < 2 ^ 53 -> roundMagnitude m = m.
Proof. intros H. unfold roundMagnitude. apply Z.ltb_lt in H. by rewrite H. Qed.

Section Round.
Variable m : Z.
Hypothesis Hm : 2 ^ 53 <= m.

Local Abbreviation e := (Z.log2 m - 52).
Local Abbreviation P := (2 ^ (Z.log2 m - 52)).

Lemma round_e_pos : 1 <= e.
Proof using Hm.
  assert (53 <= Z.log2 m); [|lia].
  apply Z.log2_le_pow2; lia.
Qed.

Lemma round_P_pos : 0 < P.
Proof using Hm. apply Z.pow_pos_nonneg; [lia|]. pose proof round_e_pos. lia. Qed.

Lemma round_P_le : P * 2 ^ 52 <= m.
Proof using Hm.
  pose proof round_e_pos.
  rewrite <- Z.pow_add_r by lia.
  replace (e + 52) with (Z.log2 m) by lia.
  apply Z.log2_spec. lia.
Qed.

Lemma roundMagnitude_large :
  exists q', roundMagnitude m = q' * P /\ m / P <= q' <= m / P + 1.
Proof using Hm.
  unfold roundMagnitude.
  destruct (m <? 2 ^ 53) eqn:E; [apply Z.ltb_lt in E; lia|].
  match goal with |- context [if ?b then _ else _] => destruct b end;
    eexists; split; try reflexivity; lia.
Qed.

Lemma roundMagnitude_lower : 0 < roundMagnitude m.
Proof using Hm.
  destruct roundMagnitude_large as (q' & -> & Hq & _).
  pose proof round_P_pos. pose proof round_P_le.
  assert (0 < m / P); [|nia].
  apply Z.div_str_pos. split; [lia|]. nia.
Qed.

Lemma roundMagnitude_upper : roundMagnitude m * 2 ^ 52 <= m * (2 ^ 52 + 1).
Proof using Hm.
  destruct roundMagnitude_large as (q' & -> & _ & Hq).
  pose proof round_P_pos. pose proof round_P_le.
  pose proof (Z.mul_div_le m P ltac:(lia)).
  nia.
Qed.
End Round.

(** A positive integer below 10^308 rounds to a positive double. *)
Lemma F_positive v :
  0 < v < 10 ^ 308 -> exists z, F v = Int z /\ 0 < z.
Proof.
  intros [Hpos Hlt]. unfold F.
  rewrite Z.abs_eq, Z.sgn_pos by lia.
  assert (0 < roundMagnitude v /\ roundMagnitude v < 2 ^ 1024) as [H1 H2].
  { destruct (Z.lt_ge_cases v (2 ^ 53)) as [Hs|Hl].
    - rewrite roundMagnitude_small by done. split; [lia|].
      eapply Z.lt_trans; [exact Hs|]. by vm_compute.
    - split; [by apply roundMagnitude_lower|].
      pose proof (roundMagnitude_upper v Hl) as Hu.
      assert (10 ^ 308 * (2 ^ 52 + 1) <= 2 ^ 1024 * 2 ^ 52) as Hc by (by vm_compute).
      assert (0 < 2 ^ 52) by (by vm_compute).
      assert (0 < 2 ^ 52 + 1) by (by vm_compute).
      apply (Z.mul_lt_mono_pos_r (2 ^ 52)); [done|].
      eapply Z.le_lt_trans; [exact Hu|].
      eapply Z.lt_le_trans; [|exact Hc].
      by apply Z.mul_lt_mono_pos_r. }
  apply Z.leb_gt in H2. rewrite H2.
  eexists; split; [reflexivity|lia].
Qed.

(** Rounding is odd: the sign goes through. *)
Lemma F_opp c x : F c = Int x -> F (- c) = Int (- x).
Proof.
  unfold F. rewrite Z.abs_opp, Z.sgn_opp.
  destruct (2 ^ 1024 <=? roundMagnitude (Z.abs c)); [discriminate|].
  intros H; simplify_eq. f_equal. lia.
Qed.

(** *** Digits *)

Ltac digit_cases d H :=
  let H' := fresh in
  assert (H' : d = 0 \/ d = 1 \/ d = 2 \/ d = 3 \/ d = 4 \/
               d = 5 \/ d = 6 \/ d = 7 \/ d = 8 \/ d = 9)
    by (unfold digit in H; lia);
  clear H; destruct_or!; subst d.

Lemma digitChar_plain d :
  digit d ->
  isWhiteSpace (digitChar d) = false /\
  (charCode (digitChar d) =? 45) = false /\
  (charCode (digitChar d) =? 43) = false /\
  isX (digitChar d) = false /\
  radixDigit 10 (digitChar d) = Some d.
Proof. intros H. digit_cases d H; by vm_compute. Qed.

Lemma digitPrefix_digits ds :
  Forall digit ds -> digitPrefix 10 (digitsToString ds) = ds.
Proof.
  induction 1 as [|d ds Hd _ IH]; [reflexivity|].
  cbn [digitsToString foldr digitPrefix]. fold (digitsToString ds).
  destruct (digitChar_plain d Hd) as (_ & _ & _ & _ & ->). by rewrite IH.
Qed.

Lemma destruct_list_rev_cons (d : Z) ds x :
  exists d' ds', ((d :: ds) ++ [x])%list = d' :: ds'.
Proof. simpl. eauto. Qed.

Lemma stripPrefix_digits ds :
  Forall digit ds -> stripPrefix (digitsToString ds) = (10, digitsToString ds).
Proof.
  intros [|d l Hd [|d1 l1 Hd1 _]]; try reflexivity.
  cbn [digitsToString foldr stripPrefix].
  destruct (digitChar_plain d1 Hd1) as (_ & _ & _ & -> & _).
  by rewrite andb_false_r.
Qed.

Lemma splitSign_digits ds :
  Forall digit ds -> splitSign (digitsToString ds) = (1, digitsToString ds).
Proof.
  intros [|d l Hd _]; [reflexivity|].
  cbn [digitsToString foldr splitSign].
  destruct (digitChar_plain d Hd) as (_ & -> & -> & _ & _). reflexivity.
Qed.

Lemma trimStart_digits ds :
  Forall digit ds -> trimStart (digitsToString ds) = digitsToString ds.
Proof.
  intros [|d l Hd _]; [reflexivity|].
  cbn [digitsToString foldr trimStart].
  by destruct (digitChar_plain d Hd) as (-> & _).
Qed.

Lemma parseInt_digits d ds :
  Forall digit (d :: ds) ->
  parseInt (digitsToString (d :: ds)) = F (mathInt 10 (d :: ds)).
Proof.
  intros H. unfold parseInt.
  rewrite trimStart_digits, splitSign_digits, stripPrefix_digits, digitPrefix_digits by done.
  by rewrite Z.mul_1_l.
Qed.

Lemma parseInt_minus_digits d ds :
  Forall digit (d :: ds) ->
  parseInt (String "-" (digitsToString (d :: ds))) = F (- mathInt 10 (d :: ds)).
Proof.
  intros H. unfold parseInt.
  change (trimStart (String "-" (digitsToString (d :: ds))))
    with (String "-" (digitsToString (d :: ds))).
  change (splitSign (String "-" (digitsToString (d :: ds))))
    with (-1, digitsToString (d :: ds)).
  cbv beta iota.
  rewrite stripPrefix_digits, digitPrefix_digits by done.
  reflexivity.
Qed.

(** *** Decimal strings *)

Lemma mathInt_snoc R ds d : mathInt R (ds ++ [d])%list = mathInt R ds * R + d.
Proof. unfold mathInt. by rewrite fold_left_app. Qed.

Lemma decimalDigits_S fuel v acc :
  decimalDigits (S fuel) v (digitsToString acc)
  = if v / 10 =? 0 then digitsToString (v mod 10 :: acc)
    else decimalDigits fuel (v / 10) (digitsToString (v mod 10 :: acc)).
Proof. reflexivity. Qed.

Lemma decimalDigits_spec fuel :
  forall v acc,
    0 <= v < 2 ^ Z.of_nat (S fuel) ->
    exists d ds,
      Forall digit (d :: ds) /\ mathInt 10 (d :: ds) = v /\
      decimalDigits (S fuel) v (digitsToString acc) = digitsToString ((d :: ds) ++ acc)%list.
Proof.
  induction fuel as [|fuel IH]; intros v acc Hv;
    (assert (Hd : digit (v mod 10))
       by (unfold digit; pose proof (Z.mod_pos_bound v 10); lia));
    rewrite decimalDigits_S; destruct (Z.eqb_spec (v / 10) 0) as [Hz|Hz];
    try (exists (v mod 10), []; split; [by apply Forall_singleton|split; [|reflexivity]];
         unfold mathInt; simpl; pose proof (Z.div_mod v 10); lia).
  - change (2 ^ Z.of_nat 1) with 2 in Hv.
    exfalso. apply Hz. apply Z.div_small. lia.
  - destruct (IH (v / 10) (v mod 10 :: acc)) as (d & ds & HF & Hval & Hstr).
    { rewrite Nat2Z.inj_succ, Z.pow_succ_r in Hv by lia.
      split; [apply Z.div_pos; lia|].
      apply Z.div_lt_upper_bound; lia. }
    destruct (destruct_list_rev_cons d ds (v mod 10)) as (d' & ds' & Heq).
    exists d', ds'. rewrite <- Heq. repeat split.
    + apply Forall_app; split; [done | by apply Forall_singleton].
    + rewrite mathInt_snoc, Hval. pose proof (Z.div_mod v 10). lia.
    + rewrite Hstr. by rewrite <- app_assoc.
Qed.

Lemma decimal_spec v :
  0 <= v ->
  exists d ds,
    Forall digit (d :: ds) /\ mathInt 10 (d :: ds) = v /\
    decimal v = digitsToString (d :: ds).
Proof.
  intros Hv. unfold decimal.
  destruct (decimalDigits_spec (Z.to_nat (Z.log2 v)) v []) as (d & ds & HF & Hval & Hstr).
  { split; [done|]. rewrite Nat2Z.inj_succ, Z2Nat.id by apply Z.log2_nonneg.
    destruct (Z.eq_dec v 0) as [->|]; [by vm_compute|].
    apply Z.log2_spec. lia. }
  exists d, ds. repeat split; [done..|].
  change EmptyString with (digitsToString []). rewrite Hstr. by rewrite app_nil_r.
Qed.

Lemma parseInt_decimal v : 0 <= v -> parseInt (decimal v) = F v.
Proof.
  intros Hv. destruct (decimal_spec v Hv) as (d & ds & HF & <- & ->).
  by apply parseInt_digits.
Qed.

Lemma parseInt_minus_decimal v : 0 <= v -> parseInt ("-" +:+ decimal v) = F (- v).
Proof.
  intros Hv. destruct (decimal_spec v Hv) as (d & ds & HF & <- & ->).
  by apply parseInt_minus_digits.
Qed.

(** *** The shortest decimal *)

Lemma shortest_rounds fuel : forall x p, F x = Int x -> F (shortest fuel x p) = Int x.
Proof.
  induction fuel as [|fuel IH]; intros x p Hx; [exact Hx|].
  cbn [shortest]. unfold roundsTo.
  repeat case_bool_decide; repeat case_match; auto.
Qed.

Lemma log10_spec fuel :
  forall v, 0 < v < 2 ^ Z.of_nat fuel ->
    0 <= log10 fuel v /\ 10 ^ log10 fuel v <= v < 10 ^ (log10 fuel v + 1).
Proof.
  induction fuel as [|fuel IH]; intros v Hv.
  - change (2 ^ Z.of_nat 0) with 1 in Hv. lia.
  - cbn [log10]. destruct (Z.ltb_spec v 10) as [Hs|Hl].
    + change (10 ^ 0) with 1. change (10 ^ (0 + 1)) with 10. lia.
    + destruct (IH (v / 10)) as (H0 & H1 & H2).
      { rewrite Nat2Z.inj_succ, Z.pow_succ_r in Hv by lia.
        split; [apply Z.div_str_pos; lia|].
        apply Z.div_lt_upper_bound; lia. }
      pose proof (Z.div_mod v 10 ltac:(lia)). pose proof (Z.mod_pos_bound v 10 ltac:(lia)).
      split; [lia|].
      replace (1 + log10 fuel (v / 10)) with (Z.succ (log10 fuel (v / 10))) by lia.
      replace (Z.succ (log10 fuel (v / 10)) + 1)
        with (Z.succ (log10 fuel (v / 10) + 1)) by lia.
      rewrite !Z.pow_succ_r by lia. lia.
Qed.

Lemma exponent10_spec v :
  0 < v -> 0 <= exponent10 v /\ 10 ^ exponent10 v <= v < 10 ^ (exponent10 v + 1).
Proof.
  intros Hv. apply log10_spec. split; [done|].
  rewrite Nat2Z.inj_succ, Z2Nat.id by apply Z.log2_nonneg.
  apply Z.log2_spec. lia.
Qed.

(** The candidates lie between the powers of ten that frame x. *)
Lemma shortest_range x e fuel :
  0 <= e -> 10 ^ e <= x < 10 ^ (e + 1) ->
  forall j, 0 <= j <= e -> 0 < shortest fuel x (10 ^ j) <= 10 ^ (e + 1).
Proof.
  intros He [Hlo Hhi].
  assert (Hx : 0 < x) by (pose proof (Z.pow_pos_nonneg 10 e); lia).
  induction fuel as [|fuel IH]; intros j Hj; [simpl; lia|].
  set (p := 10 ^ j).
  assert (Hp : 0 < p) by (apply Z.pow_pos_nonneg; lia).
  assert (Hpx : p <= x).
  { eapply Z.le_trans; [|exact Hlo]. apply Z.pow_le_mono_r; lia. }
  assert (Hsplit : 10 ^ (e + 1) = p * 10 ^ (e + 1 - j)).
  { subst p. rewrite <- Z.pow_add_r by lia. f_equal; lia. }
  assert (HK : 0 < 10 ^ (e + 1 - j)) by (apply Z.pow_pos_nonneg; lia).
  assert (Hq1 : 1 <= x / p) by (apply Z.div_le_lower_bound; lia).
  assert (Hq2 : x / p < 10 ^ (e + 1 - j)) by (apply Z.div_lt_upper_bound; lia).
  pose proof (Z.mul_div_le x p Hp) as Hmul.
  assert (Hlo' : 0 < x / p * p <= 10 ^ (e + 1)) by nia.
  assert (Hhi' : 0 < x / p * p + p <= 10 ^ (e + 1)) by nia.
  cbn [shortest]. fold p.
  repeat case_match; try lia.
  assert (j <> 0) by (intros ->; subst p; simpl in *; lia).
  replace (p / 10) with (10 ^ (j - 1)).
  - apply IH. lia.
  - subst p. replace j with (Z.succ (j - 1)) at 2 by lia.
    rewrite Z.pow_succ_r by lia. symmetry. rewrite Z.mul_comm. apply Z.div_mul. lia.
Qed.

Lemma shortestDecimal_spec x :
  0 < x < 10 ^ 21 -> representable x ->
  F (shortestDecimal x) = Int x /\ 0 < shortestDecimal x < 10 ^ 21.
Proof.
  intros [Hpos Hlt] Hrep. unfold shortestDecimal.
  destruct (exponent10_spec x Hpos) as (He & Hlo & Hhi).
  pose proof (shortest_rounds (S (Z.to_nat (exponent10 x))) x (10 ^ exponent10 x) Hrep) as HF.
  split; [exact HF|].
  pose proof (shortest_range x (exponent10 x) (S (Z.to_nat (exponent10 x))) He
                (conj Hlo Hhi) (exponent10 x) ltac:(lia)) as [Hc1 Hc2].
  split; [exact Hc1|].
  assert (He21 : exponent10 x < 21).
  { apply (Z.pow_lt_mono_r_iff 10); lia. }
  assert (Hle : 10 ^ (exponent10 x + 1) <= 10 ^ 21) by (apply Z.pow_le_mono_r; lia).
  destruct (Z.eq_dec (shortest (S (Z.to_nat (exponent10 x))) x (10 ^ exponent10 x)) (10 ^ 21))
    as [Heq|Hne]; [|lia].
  rewrite Heq in HF. assert (F (10 ^ 21) = Int (10 ^ 21)) as HF21 by (by vm_compute).
  rewrite HF21 in HF. injection HF as HF. lia.
Qed.

(** What [toString] writes for an integer below 10^21 in magnitude is read
    back by [parseInt] as the same number. *)
Lemma parseInt_toString z :
  representable z -> - 10 ^ 21 < z < 10 ^ 21 ->
  parseInt (toString (Int z)) = Int z.
Proof.
  intros Hrep Hz. unfold toString.
  destruct (Z.eqb_spec z 0) as [->|Hz0]; [by vm_compute|].
  destruct (Z.ltb_spec z 0) as [Hneg|Hpos]; unfold positiveToString.
  - assert (Hrep' : representable (- z)).
    { unfold representable. by apply F_opp. }
    destruct (shortestDecimal_spec (- z) ltac:(lia) Hrep') as (HF & Hc1 & Hc2).
    apply Z.ltb_lt in Hc2 as Hc2'. rewrite Hc2'.
    rewrite parseInt_minus_decimal by lia.
    apply F_opp in HF. by rewrite Z.opp_involutive in HF.
  - destruct (shortestDecimal_spec z ltac:(lia) Hrep) as (HF & Hc1 & Hc2).
    apply Z.ltb_lt in Hc2 as Hc2'. rewrite Hc2'.
    by rewrite parseInt_decimal by lia.
Qed.

(** *** Numerals *)

Lemma isDigit_digitChar c :
  isDigit c = true -> digit (charCode c - 48) /\ digitChar (charCode c - 48) = c.
Proof.
  unfold isDigit, digit, digitChar, charCode. intros H.
  apply andb_true_iff in H as [H1 H2]. apply Z.leb_le in H1, H2.
  split; [lia|].
  replace (48 + (Z.of_N (N_of_ascii c) - 48)) with (Z.of_N (N_of_ascii c)) by lia.
  by rewrite N2Z.id, ascii_N_embedding.
Qed.

Lemma allDigits_spec s :
  allDigits s = true ->
  exists ds, Forall digit ds /\ s = digitsToString ds /\ length ds = String.length s.
Proof.
  induction s as [|c s IH]; intros H.
  - exists []. by repeat split.
  - cbn [allDigits] in H. apply andb_true_iff in H as [Hc Hs].
    destruct (IH Hs) as (ds & HF & -> & Hlen).
    destruct (isDigit_digitChar c Hc) as [Hd Hch].
    exists (charCode c - 48 :: ds). repeat split.
    + by constructor.
    + cbn [digitsToString foldr]. by rewrite Hch.
    + simpl. by rewrite Hlen.
Qed.

Lemma mathInt_bounds ds :
  Forall digit ds ->
  forall a, 0 <= a ->
    a <= fold_left (fun acc d => acc * 10 + d) ds a < (a + 1) * 10 ^ Z.of_nat (length ds).
Proof.
  induction 1 as [|d ds Hd _ IH]; intros a Ha; simpl fold_left.
  - simpl. lia.
  - unfold digit in Hd. specialize (IH (a * 10 + d) ltac:(lia)).
    rewrite length_cons, Nat2Z.inj_succ, Z.pow_succ_r by lia.
    pose proof (Z.pow_pos_nonneg 10 (Z.of_nat (length ds)) ltac:(lia) ltac:(lia)).
    nia.
Qed.

(** [parseInt] reads a positive numeral as a positive integer. *)
Lemma parseInt_numeral s :
  numeralPositivo s = true -> exists z, parseInt s = Int z /\ 0 < z.
Proof.
  destruct s as [|c rest]; [discriminate|]. cbn [numeralPositivo]. intros H.
  apply andb_true_iff in H as [H Hlen]. apply andb_true_iff in H as [H Hrest].
  apply andb_true_iff in H as [Hc1 Hc2]. apply Z.leb_le in Hc1, Hc2. apply Z.ltb_lt in Hlen.
  destruct (allDigits_spec rest Hrest) as (ds & HF & -> & Hl). rewrite <- Hl in Hlen.
  destruct (isDigit_digitChar c) as [Hd Hch].
  { unfold isDigit. apply andb_true_iff. split; apply Z.leb_le; lia. }
  rewrite <- Hch. change (String (digitChar (charCode c - 48)) (digitsToString ds))
    with (digitsToString (charCode c - 48 :: ds)).
  rewrite parseInt_digits by (by constructor).
  apply F_positive. unfold mathInt. simpl fold_left.
  rewrite Z.mul_0_l, Z.add_0_l.
  pose proof (mathInt_bounds ds HF (charCode c - 48) ltac:(lia)) as [Hb1 Hb2].
  split; [lia|].
  eapply Z.lt_le_trans; [exact Hb2|].
  assert (10 ^ Z.of_nat (length ds) <= 10 ^ 307) by (apply Z.pow_le_mono_r; lia).
  assert (0 < 10 ^ Z.of_nat (length ds)) by (apply Z.pow_pos_nonneg; lia).
  replace (10 ^ 308) with (10 * 10 ^ 307) by (by vm_compute).
  unfold digit in Hd. nia.
Qed.

End JSFacts.

(** ** Properties *)

Module Props.
Import JS Store RodadaConfig Spec.

#[local] Arguments parseInt : simpl never.
#[local] Arguments toString : simpl never.

(** *** Running a request *)

Ltac unfold_async :=
  unfold verificarSeExcedeuLimiteRodadas, obterConfigRodada, obterConfigRodada_try,
    obterLimiteRodadas, salvarConfigRodada, salvarLimiteRodadas,
    throw_if_error, select_valor_single, select_ordem_top, select_rodadas,
    upsert_configuracao, try_catch, throw, request, mbind, async_bind, mret, async_ret,
    behaviour_at in *;
  simpl in *.

Ltac split_step :=
  match goal with
  | |- context [match default Answers (?l !! ?i) with _ => _ end] =>
      let E := fresh "Hb" in destruct (l !! i) as [[]|] eqn:E; simpl
  | |- context [match @lookup _ _ (gmap _ _) _ ?k ?m with _ => _ end] =>
      let E := fresh "Hl" in destruct (@lookup _ _ (gmap _ _) _ k m) eqn:E; simpl
  | |- context [match _ <$> take 1 ?l with _ => _ end] =>
      let E := fresh "Ht" in destruct l eqn:E; simpl
  | |- context [if negb (String.eqb ?a ?b) then _ else _] =>
      let E := fresh "Hc" in destruct (String.eqb a b) eqn:E; simpl
  end.

Ltac run :=
  unfold_async;
  repeat (rewrite ?lookup_tail in *; simplify_eq; simpl; try split_step).

(** *** Ordered fetches *)

#[local] Instance ordem_desc_trans : Transitive ordem_desc.
Proof. unfold ordem_desc; intros a b c; lia. Qed.
#[local] Instance ordem_desc_total : Total ordem_desc.
Proof. unfold ordem_desc; intros a b; lia. Qed.

Lemma maximum_cons x l :
  maximum (x :: l) = Some (from_option (Z.max x) x (maximum l)).
Proof. reflexivity. Qed.

Lemma maximum_elem l m : maximum l = Some m -> m ∈ l.
Proof.
  revert m; induction l as [|x l IH]; intros m H; simpl in H; [discriminate|].
  destruct (maximum l) as [m'|]; simpl in H; simplify_eq.
  - destruct (Z.max_spec x m') as [[_ ->]|[_ ->]]; [right; auto | left].
  - left.
Qed.

Lemma maximum_upper l m x : maximum l = Some m -> x ∈ l -> x <= m.
Proof.
  revert m; induction l as [|y l IH]; intros m H Hx; [inversion Hx|].
  simpl in H. destruct (maximum l) as [m'|] eqn:E; simpl in H; simplify_eq.
  - apply elem_of_cons in Hx as [->|Hx]; [lia|].
    specialize (IH m' eq_refl Hx). lia.
  - apply elem_of_cons in Hx as [->|Hx]; [lia|].
    destruct l; [inversion Hx | simpl in E; discriminate].
Qed.

Lemma maximum_None l : maximum l = None <-> l = [].
Proof. destruct l; simpl; split; congruence. Qed.

#[local] Instance maximum_perm : Proper ((≡ₚ) ==> (=)) maximum.
Proof.
  intros l1 l2 HP.
  destruct (maximum l1) as [m1|] eqn:E1, (maximum l2) as [m2|] eqn:E2.
  - f_equal. apply Z.le_antisymm.
    + eapply maximum_upper; [exact E2|]. rewrite <- HP. by apply maximum_elem.
    + eapply maximum_upper; [exact E1|]. rewrite HP. by apply maximum_elem.
  - apply maximum_None in E2; subst. apply Permutation_nil_r in HP; subst. discriminate.
  - apply maximum_None in E1; subst. apply Permutation_nil_l in HP; subst. discriminate.
  - reflexivity.
Qed.

Lemma maximum_sorted_head h t :
  StronglySorted ordem_desc (h :: t) ->
  maximum (hist_ordem <$> (h :: t)) = Some (hist_ordem h).
Proof.
  intros HS. apply StronglySorted_inv in HS as [_ Hh].
  rewrite fmap_cons, maximum_cons.
  destruct (maximum (hist_ordem <$> t)) as [m|] eqn:E; simpl; [|reflexivity].
  f_equal. apply maximum_elem in E. apply list_elem_of_fmap in E as (y & -> & Hy).
  rewrite Forall_forall in Hh. specialize (Hh y Hy). unfold ordem_desc in Hh. lia.
Qed.

(** The first row of the fetch ordered by [ordem], descending, carries the
    greatest sequence number. *)
Lemma top_is_maximum rows :
  hist_ordem <$> head (merge_sort ordem_desc rows) = maximum (hist_ordem <$> rows).
Proof.
  rewrite <- (merge_sort_Permutation ordem_desc rows) at 2.
  pose proof (StronglySorted_merge_sort ordem_desc rows) as HS.
  destruct (merge_sort ordem_desc rows) as [|h t]; [done|].
  by rewrite maximum_sorted_head.
Qed.

(** The rows with status 'finalizada' are as many in the fetch as in the
    table, whatever the order of the fetch. *)
Lemma finalizadas_fetch (l : list rodada) :
  length (filter finalizada
            ((fun r => {| numero := Int (rodada_numero r); status := rodada_status r |})
               <$> merge_sort numero_desc l))
  = length (filter rodada_finalizada l).
Proof.
  rewrite (merge_sort_Permutation numero_desc l).
  induction l as [|r l IH]; [done|].
  rewrite fmap_cons, !filter_cons. unfold finalizada at 1, rodada_finalizada at 1. simpl.
  destruct (decide (rodada_status r = "finalizada")); simpl; by rewrite IH.
Qed.

(** *** The reads always return *)

Lemma obterConfigRodada_total rodadaId w :
  exists cfg w', obterConfigRodada rodadaId w = (Returned (Some cfg), w').
Proof. run; eauto. Qed.

Lemma obterLimiteRodadas_total w :
  exists n, obterLimiteRodadas w
            = (Returned n, {| db := db w; schedule := tail (schedule w) |}).
Proof. run; eauto. Qed.

Lemma obterLimiteRodadas_world w c w1 :
  obterLimiteRodadas w = (c, w1) ->
  w1 = {| db := db w; schedule := tail (schedule w) |}.
Proof. destruct (obterLimiteRodadas_total w) as [n ->]. congruence. Qed.

(** *** Error handling of the reads *)

(** C5. [obterConfigRodada] completes normally and with a configuration
    (never by throwing, never with null) whatever the store does, rejected
    requests included; whenever its [try] block throws, the [catch] block
    makes the result exactly the default, 5 pizzas and time limit 0; and
    that is what a rejected request leads to, at each of the three lookups
    the call gets to. *)
Theorem obterConfigRodada_never_throws (rodadaId : string) (w : world) :
  (exists cfg w', obterConfigRodada rodadaId w = (Returned (Some cfg), w')) /\
  (forall x w', obterConfigRodada_try rodadaId w = (Thrown x, w') ->
                obterConfigRodada rodadaId w = (Returned (Some padrao), w')) /\
  (forall x, behaviour_at 0 w = Rejects x ->
             (obterConfigRodada rodadaId w).1 = Returned (Some padrao)) /\
  (forall x, behaviour_at 1 w = Rejects x -> sem_rejeicao 0 w ->
             fonte_config 0 (chaveRodada rodadaId) w = None ->
             (obterConfigRodada rodadaId w).1 = Returned (Some padrao)) /\
  (forall x, behaviour_at 2 w = Rejects x -> sem_rejeicao 0 w -> sem_rejeicao 1 w ->
             fonte_config 0 (chaveRodada rodadaId) w = None ->
             fonte_config 1 "pizzas_planejadas_padrao" w = None ->
             (obterConfigRodada rodadaId w).1 = Returned (Some padrao)).
Proof.
  split; [apply obterConfigRodada_total|].
  split.
  { intros x w' H. unfold obterConfigRodada, try_catch. rewrite H. reflexivity. }
  unfold sem_rejeicao, fonte_config, padrao.
  repeat split; intros x; run; intros; simplify_eq; try reflexivity;
    exfalso; match goal with H : forall _, _ <> _ |- _ => by eapply H end.
Qed.

Lemma obterConfigRodada_never_throws_witness :
  obterConfigRodada_try "r1" mundo_rejeita
    = (Thrown (Rejection "fetch failed"), {| db := db mundo_rejeita; schedule := [] |}) /\
  obterConfigRodada "r1" mundo_rejeita
    = (Returned (Some padrao), {| db := db mundo_rejeita; schedule := [] |}).
Proof.
  split; [reflexivity|].
  apply (proj1 (proj2 (obterConfigRodada_never_throws "r1" mundo_rejeita))
           (Rejection "fetch failed")).
  reflexivity.
Defined.

(** C6. [obterLimiteRodadas] never throws. When the store answers, it
    returns the parsed value of the entry 'limite_total_rodadas' if there is
    one and 5 if there is none (the store then reports PGRST116); it returns
    5 when the store reports any error, and 5 when the request is
    rejected. *)
Theorem obterLimiteRodadas_cases (w : world) :
  (exists n w', obterLimiteRodadas w = (Returned n, w')) /\
  (forall c, behaviour_at 0 w = Answers ->
             configuracoes (db w) !! "limite_total_rodadas" = Some c ->
             (obterLimiteRodadas w).1 = Returned (parseInt (cfg_valor c))) /\
  (behaviour_at 0 w = Answers ->
   configuracoes (db w) !! "limite_total_rodadas" = None ->
   (obterLimiteRodadas w).1 = Returned (Int 5)) /\
  (forall e, behaviour_at 0 w = Fails e -> (obterLimiteRodadas w).1 = Returned (Int 5)) /\
  (forall x, behaviour_at 0 w = Rejects x -> (obterLimiteRodadas w).1 = Returned (Int 5)).
Proof.
  split; [destruct (obterLimiteRodadas_total w) as [n Hn]; eauto|].
  repeat split; intros; revert H; run; intros; simplify_eq; try reflexivity.
Qed.

Lemma obterLimiteRodadas_cases_witness :
  (obterLimiteRodadas mundo_limite).1 = Returned (Int 3) /\
  (obterLimiteRodadas {| db := db mundo_limite; schedule := [Fails not_found] |}).1
    = Returned (Int 5).
Proof.
  split.
  - apply (proj1 (proj2 (obterLimiteRodadas_cases mundo_limite)) (Configuracao "3" "limite"));
      reflexivity.
  - apply (proj1 (proj2 (proj2 (proj2
             (obterLimiteRodadas_cases {| db := db mundo_limite;
                                          schedule := [Fails not_found] |})))) not_found).
    reflexivity.
Defined.

(** *** The limit check *)

(** C8. When the fetch of the rounds fails, be it an error the store reports
    or a rejected request, [verificarSeExcedeuLimiteRodadas] does not throw:
    it returns exactly excedeu = false, totalRodadas = 0, limite = 5,
    whatever limit was read before. *)
Theorem verificar_fetch_failure (w : world) (limite0 : number) (w1 : world) :
  obterLimiteRodadas w = (Returned limite0, w1) ->
  behaviour_at 0 w1 <> Answers ->
  (verificarSeExcedeuLimiteRodadas w).1
    = Returned {| excedeu := false; totalRodadas := Int 0; limite := Int 5 |}.
Proof.
  intros H Hb. pose proof (obterLimiteRodadas_world _ _ _ H) as ->.
  clear H. revert Hb. run; intros; try reflexivity; congruence.
Qed.

Lemma verificar_fetch_failure_witness :
  (verificarSeExcedeuLimiteRodadas
     {| db := db mundo_limite; schedule := [Answers; Fails (mkError "500" "down")] |}).1
    = Returned {| excedeu := false; totalRodadas := Int 0; limite := Int 5 |}.
Proof.
  apply (verificar_fetch_failure _ (Int 3)
           {| db := db mundo_limite; schedule := [Fails (mkError "500" "down")] |}).
  - reflexivity.
  - discriminate.
Defined.

(** C2. When the fetch of the rounds succeeds, the result has
    excedeu = (finalizadas >= limite), where finalizadas counts the rounds
    of status 'finalizada' and limite is what [obterLimiteRodadas] returned;
    field totalRodadas carries that count of finalised rounds, which is not
    the number of rounds created (3 against 4 in the example). *)
Theorem verificar_counts_finalizadas :
  (forall (w : world) (limite0 : number) (w1 : world),
     obterLimiteRodadas w = (Returned limite0, w1) ->
     behaviour_at 0 w1 = Answers ->
     let finalizadas := comprimento (filter rodada_finalizada (rodadas (db w))) in
     (verificarSeExcedeuLimiteRodadas w).1
       = Returned {| excedeu := ge finalizadas limite0;
                     totalRodadas := finalizadas;
                     limite := limite0 |}) /\
  (verificarSeExcedeuLimiteRodadas mundo_limite).1
    = Returned {| excedeu := true; totalRodadas := Int 3; limite := Int 3 |} /\
  comprimento (rodadas (db mundo_limite)) = Int 4.
Proof.
  split; [|split; reflexivity].
  intros w limite0 w1 H Hb finalizadas.
  pose proof (obterLimiteRodadas_world _ _ _ H) as ->.
  assert (Hlim : (obterLimiteRodadas w).1 = Returned limite0) by (by rewrite H).
  clear H. subst finalizadas. unfold comprimento.
  rewrite <- (finalizadas_fetch (rodadas (db w))).
  revert Hb Hlim. run; intros; simplify_eq; reflexivity.
Qed.

Lemma verificar_counts_finalizadas_witness :
  (verificarSeExcedeuLimiteRodadas
     {| db := db mundo_limite; schedule := [Fails not_found; Answers] |}).1
    = Returned {| excedeu := false; totalRodadas := Int 3; limite := Int 5 |}.
Proof.
  apply (proj1 verificar_counts_finalizadas
           {| db := db mundo_limite; schedule := [Fails not_found; Answers] |}
           (Int 5) {| db := db mundo_limite; schedule := [Answers] |});
    reflexivity.
Defined.

(** *** The writes *)

(** C9. Each of the two save functions throws to its caller exactly when
    the upsert fails (the store reports an error, which is the value thrown,
    or the request is rejected), and returns normally exactly when the store
    carries the upsert out. *)
Theorem salvar_throws_iff_upsert_fails (rodadaId : string) (n : number) (w : world) :
  ((exists x w', salvarConfigRodada rodadaId n w = (Thrown x, w'))
     <-> behaviour_at 0 w <> Answers) /\
  ((exists w', salvarConfigRodada rodadaId n w = (Returned tt, w'))
     <-> behaviour_at 0 w = Answers) /\
  ((exists x w', salvarLimiteRodadas n w = (Thrown x, w'))
     <-> behaviour_at 0 w <> Answers) /\
  ((exists w', salvarLimiteRodadas n w = (Returned tt, w'))
     <-> behaviour_at 0 w = Answers) /\
  (forall e, behaviour_at 0 w = Fails e ->
     (salvarConfigRodada rodadaId n w).1 = Thrown (PostgrestFailure e) /\
     (salvarLimiteRodadas n w).1 = Thrown (PostgrestFailure e)) /\
  (forall x, behaviour_at 0 w = Rejects x ->
     (salvarConfigRodada rodadaId n w).1 = Thrown x /\
     (salvarLimiteRodadas n w).1 = Thrown x).
Proof.
  run; repeat split;
    try (intros (? & ? & ?); discriminate); try (intros (? & ?); discriminate);
    intros; simplify_eq; try done; eauto.
Qed.

Lemma salvar_throws_iff_upsert_fails_witness :
  (salvarConfigRodada "r1" (Int 7)
     {| db := db mundo_limite; schedule := [Fails (mkError "42501" "denied")] |}).1
    = Thrown (PostgrestFailure (mkError "42501" "denied")) /\
  exists w', salvarLimiteRodadas (Int 7) mundo_limite = (Returned tt, w').
Proof.
  split.
  - apply (proj1 (proj2 (proj2 (proj2 (proj2
             (salvar_throws_iff_upsert_fails "r1" (Int 7)
                {| db := db mundo_limite;
                   schedule := [Fails (mkError "42501" "denied")] |})))))
             (mkError "42501" "denied")).
    reflexivity.
  - apply (proj1 (proj2 (proj2 (proj2
             (salvar_throws_iff_upsert_fails "r1" (Int 7) mundo_limite))))).
    reflexivity.
Defined.

(** *** Keys *)

Lemma append_length (s t : string) :
  String.length (s +:+ t) = (String.length s + String.length t)%nat.
Proof. induction s as [|c s IH]; simpl; [reflexivity | by rewrite IH]. Qed.

Lemma append_inj_r (t s1 s2 : string) : s1 +:+ t = s2 +:+ t -> s1 = s2.
Proof.
  revert s2; induction s1 as [|c s1 IH]; intros [|c' s2] H; simpl in H.
  - reflexivity.
  - apply (f_equal String.length) in H. rewrite !append_length in H. simpl in H. lia.
  - apply (f_equal String.length) in H. rewrite !append_length in H. simpl in H. lia.
  - injection H as -> H. f_equal. by apply IH.
Qed.

Lemma chaveRodada_inj r r' : chaveRodada r = chaveRodada r' -> r = r'.
Proof.
  unfold chaveRodada; simpl. intros H; simplify_eq. by eapply append_inj_r.
Qed.

Lemma chaveRodada_not_padrao r : chaveRodada r <> "pizzas_planejadas_padrao".
Proof. unfold chaveRodada; simpl. discriminate. Qed.

Lemma chaveRodada_not_limite r : chaveRodada r <> "limite_total_rodadas".
Proof. unfold chaveRodada; simpl. discriminate. Qed.

(** *** What the reads look at *)

Lemma obterConfigRodada_depends rodadaId d1 d2 sch :
  configuracoes d1 !! chaveRodada rodadaId = configuracoes d2 !! chaveRodada rodadaId ->
  configuracoes d1 !! "pizzas_planejadas_padrao"
    = configuracoes d2 !! "pizzas_planejadas_padrao" ->
  historico_sabores_rodada d1 = historico_sabores_rodada d2 ->
  (obterConfigRodada rodadaId {| db := d1; schedule := sch |}).1
  = (obterConfigRodada rodadaId {| db := d2; schedule := sch |}).1.
Proof.
  intros H1 H2 H3. unfold_async.
  repeat (rewrite ?lookup_tail, ?H1, ?H2, ?H3; simpl; try split_step); reflexivity.
Qed.

Lemma obterLimiteRodadas_depends d1 d2 sch :
  configuracoes d1 !! "limite_total_rodadas" = configuracoes d2 !! "limite_total_rodadas" ->
  (obterLimiteRodadas {| db := d1; schedule := sch |}).1
  = (obterLimiteRodadas {| db := d2; schedule := sch |}).1.
Proof.
  intros H1. unfold_async.
  repeat (rewrite ?lookup_tail, ?H1; simpl; try split_step); reflexivity.
Qed.

Lemma salvarConfigRodada_so_muda r n w :
  so_muda (chaveRodada r) (db w) (db (salvarConfigRodada r n w).2).
Proof.
  unfold so_muda. run; repeat split; intros; try reflexivity;
    by rewrite lookup_insert_ne.
Qed.

Lemma salvarLimiteRodadas_so_muda n w :
  so_muda "limite_total_rodadas" (db w) (db (salvarLimiteRodadas n w).2).
Proof.
  unfold so_muda. run; repeat split; intros; try reflexivity;
    by rewrite lookup_insert_ne.
Qed.

(** C10. The three reads leave the tables as they are. A save changes at
    most the one configuration entry of its key, which a successful save
    sets to the string of its argument, and nothing when it fails. Hence
    saving the configuration of round r changes neither the configuration
    read for another round r' nor the limit read, and saving the limit
    changes no configuration read. *)
Theorem saves_and_reads_frame :
  (forall r w, db (obterConfigRodada r w).2 = db w) /\
  (forall w, db (obterLimiteRodadas w).2 = db w) /\
  (forall w, db (verificarSeExcedeuLimiteRodadas w).2 = db w) /\
  (forall r n w,
     so_muda (chaveRodada r) (db w) (db (salvarConfigRodada r n w).2) /\
     (behaviour_at 0 w = Answers ->
      configuracoes (db (salvarConfigRodada r n w).2) !! chaveRodada r
        = Some {| cfg_valor := toString n; cfg_descricao := descricaoRodada r |}) /\
     (behaviour_at 0 w <> Answers -> db (salvarConfigRodada r n w).2 = db w)) /\
  (forall n w,
     so_muda "limite_total_rodadas" (db w) (db (salvarLimiteRodadas n w).2) /\
     (behaviour_at 0 w = Answers ->
      configuracoes (db (salvarLimiteRodadas n w).2) !! "limite_total_rodadas"
        = Some {| cfg_valor := toString n;
                  cfg_descricao := "Limite máximo de rodadas permitidas no jogo" |}) /\
     (behaviour_at 0 w <> Answers -> db (salvarLimiteRodadas n w).2 = db w)) /\
  (forall r r' n w sch, r' <> r ->
     (obterConfigRodada r' {| db := db (salvarConfigRodada r n w).2; schedule := sch |}).1
     = (obterConfigRodada r' {| db := db w; schedule := sch |}).1) /\
  (forall r n w sch,
     (obterLimiteRodadas {| db := db (salvarConfigRodada r n w).2; schedule := sch |}).1
     = (obterLimiteRodadas {| db := db w; schedule := sch |}).1) /\
  (forall r n w sch,
     (obterConfigRodada r {| db := db (salvarLimiteRodadas n w).2; schedule := sch |}).1
     = (obterConfigRodada r {| db := db w; schedule := sch |}).1).
Proof.
  split; [intros; run; reflexivity|].
  split; [intros; run; reflexivity|].
  split; [intros; run; reflexivity|].
  split.
  { intros r n w. split; [apply salvarConfigRodada_so_muda|].
    unfold descricaoRodada.
    split; run; intros; simplify_eq; try done; by rewrite lookup_insert_eq. }
  split.
  { intros n w. split; [apply salvarLimiteRodadas_so_muda|].
    split; run; intros; simplify_eq; try done; by rewrite lookup_insert_eq. }
  split.
  { intros r r' n w sch Hne.
    destruct (salvarConfigRodada_so_muda r n w) as (Hk & Hh & _).
    apply obterConfigRodada_depends; [apply Hk | apply Hk | exact Hh].
    - intros H; apply chaveRodada_inj in H; congruence.
    - intros H; symmetry in H; by apply chaveRodada_not_padrao in H. }
  split.
  { intros r n w sch.
    destruct (salvarConfigRodada_so_muda r n w) as (Hk & _ & _).
    apply obterLimiteRodadas_depends, Hk.
    intros H; symmetry in H; by apply chaveRodada_not_limite in H. }
  intros r n w sch.
  destruct (salvarLimiteRodadas_so_muda n w) as (Hk & Hh & _).
  apply obterConfigRodada_depends; [apply Hk | apply Hk | exact Hh].
  - apply chaveRodada_not_limite.
  - discriminate.
Qed.

(** *** The fallback chain *)

Lemma obterConfigRodada_chain rodadaId w :
  sem_rejeicao 0 w -> sem_rejeicao 1 w -> sem_rejeicao 2 w ->
  (obterConfigRodada rodadaId w).1
  = Returned (Some {| numeroPizzasPlanejadas :=
                        primeiraFonte (fonte_config 0 (chaveRodada rodadaId) w)
                                      (fonte_config 1 "pizzas_planejadas_padrao" w)
                                      (fonte_historico 2 rodadaId w);
                      tempoLimitePorPizza := Int 0 |}).
Proof.
  unfold sem_rejeicao, fonte_config, fonte_historico, ordens.
  rewrite <- top_is_maximum. intros H0 H1 H2. revert H0 H1 H2.
  run; intros; try reflexivity;
    exfalso; first [by eapply H0 | by eapply H1 | by eapply H2].
Qed.

Lemma tempoLimitePorPizza_zero rodadaId w cfg w' :
  obterConfigRodada rodadaId w = (Returned (Some cfg), w') ->
  tempoLimitePorPizza cfg = Int 0.
Proof. run; intros; simplify_eq; reflexivity. Qed.

(** C1. When the store answers every request, [obterConfigRodada] takes the
    planned number of pizzas from the first source available, in the fixed
    order: the entry 'rodada_{id}_pizzas_planejadas' (its parsed value), else
    the entry 'pizzas_planejadas_padrao' (its parsed value), else the
    greatest [ordem] among the records of the round, else 5. And whatever the
    store does, [tempoLimitePorPizza] is 0 in the result. *)
Theorem obterConfigRodada_first_source :
  (forall rodadaId w,
     (forall i, behaviour_at i w = Answers) ->
     (obterConfigRodada rodadaId w).1
     = Returned (Some {| numeroPizzasPlanejadas :=
                           primeiraFonte
                             (cfg_valor <$> configuracoes (db w) !! chaveRodada rodadaId)
                             (cfg_valor <$> configuracoes (db w) !! "pizzas_planejadas_padrao")
                             (maximum (ordens rodadaId (db w)));
                         tempoLimitePorPizza := Int 0 |})) /\
  (forall rodadaId w cfg w',
     obterConfigRodada rodadaId w = (Returned (Some cfg), w') ->
     tempoLimitePorPizza cfg = Int 0).
Proof.
  split; [|apply tempoLimitePorPizza_zero].
  intros rodadaId w H.
  rewrite obterConfigRodada_chain by (intros x; rewrite H; discriminate).
  unfold fonte_config, fonte_historico. by rewrite !H.
Qed.

Lemma obterConfigRodada_first_source_witness :
  (forall i, behaviour_at i mundo_historico = Answers) /\
  (obterConfigRodada "r1" mundo_historico).1
    = Returned (Some {| numeroPizzasPlanejadas := Int 7; tempoLimitePorPizza := Int 0 |}).
Proof.
  assert (H : forall i, behaviour_at i mundo_historico = Answers) by reflexivity.
  split; [exact H|].
  exact (proj1 obterConfigRodada_first_source "r1" mundo_historico H).
Defined.

(** C4. An error the store reports at a lookup does not end the resolution:
    the lookup counts as a source that is not available, and the result is
    what the chain gives on the other sources as the later (and earlier)
    requests show them; when the third lookup errs and neither entry was
    seen, and when all three err, it is the default, 5 and 0. *)
Theorem obterConfigRodada_error_falls_through (rodadaId : string) (w : world) :
  (forall e, behaviour_at 0 w = Fails e -> sem_rejeicao 1 w -> sem_rejeicao 2 w ->
     (obterConfigRodada rodadaId w).1
     = Returned (Some {| numeroPizzasPlanejadas :=
                           primeiraFonte None
                             (fonte_config 1 "pizzas_planejadas_padrao" w)
                             (fonte_historico 2 rodadaId w);
                         tempoLimitePorPizza := Int 0 |})) /\
  (forall e, behaviour_at 1 w = Fails e -> sem_rejeicao 0 w -> sem_rejeicao 2 w ->
     (obterConfigRodada rodadaId w).1
     = Returned (Some {| numeroPizzasPlanejadas :=
                           primeiraFonte (fonte_config 0 (chaveRodada rodadaId) w)
                             None
                             (fonte_historico 2 rodadaId w);
                         tempoLimitePorPizza := Int 0 |})) /\
  (forall e, behaviour_at 2 w = Fails e -> sem_rejeicao 0 w -> sem_rejeicao 1 w ->
     (obterConfigRodada rodadaId w).1
     = Returned (Some {| numeroPizzasPlanejadas :=
                           primeiraFonte (fonte_config 0 (chaveRodada rodadaId) w)
                             (fonte_config 1 "pizzas_planejadas_padrao" w)
                             None;
                         tempoLimitePorPizza := Int 0 |})) /\
  (forall e1 e2 e3,
     behaviour_at 0 w = Fails e1 -> behaviour_at 1 w = Fails e2 ->
     behaviour_at 2 w = Fails e3 ->
     (obterConfigRodada rodadaId w).1 = Returned (Some padrao)).
Proof.
  repeat split.
  - intros e He H1 H2.
    rewrite obterConfigRodada_chain; [|intros x; rewrite He; discriminate|done|done].
    unfold fonte_config at 1. by rewrite He.
  - intros e He H0 H2.
    rewrite obterConfigRodada_chain; [|done|intros x; rewrite He; discriminate|done].
    unfold fonte_config at 2. by rewrite He.
  - intros e He H0 H1.
    rewrite obterConfigRodada_chain; [|done|done|intros x; rewrite He; discriminate].
    unfold fonte_historico. by rewrite He.
  - intros e1 e2 e3 H0 H1 H2.
    rewrite obterConfigRodada_chain by (intros x; rewrite ?H0, ?H1, ?H2; discriminate).
    unfold fonte_config, fonte_historico. by rewrite H0, H1, H2.
Qed.

Lemma obterConfigRodada_error_falls_through_witness :
  behaviour_at 0 mundo_erro_global = Fails (mkError "500" "down") /\
  (obterConfigRodada "r1" mundo_erro_global).1
    = Returned (Some {| numeroPizzasPlanejadas := Int 8; tempoLimitePorPizza := Int 0 |}).
Proof.
  split; [reflexivity|].
  apply (proj1 (obterConfigRodada_error_falls_through "r1" mundo_erro_global)
           (mkError "500" "down")).
  - reflexivity.
  - intros x; discriminate.
  - intros x; discriminate.
Defined.

(** *** The values returned *)




(** *** Saving, then reading *)

Lemma salvarConfigRodada_written r n w w1 :
  salvarConfigRodada r n w = (Returned tt, w1) ->
  configuracoes (db w1) !! chaveRodada r
  = Some {| cfg_valor := toString n; cfg_descricao := descricaoRodada r |}.
Proof. unfold descricaoRodada. run; intros; simplify_eq; simpl; by rewrite lookup_insert_eq. Qed.

Lemma salvarLimiteRodadas_written n w w1 :
  salvarLimiteRodadas n w = (Returned tt, w1) ->
  configuracoes (db w1) !! "limite_total_rodadas"
  = Some {| cfg_valor := toString n;
            cfg_descricao := "Limite máximo de rodadas permitidas no jogo" |}.
Proof. run; intros; simplify_eq; simpl; by rewrite lookup_insert_eq. Qed.

Lemma obterConfigRodada_especifica r w c :
  behaviour_at 0 w = Answers ->
  configuracoes (db w) !! chaveRodada r = Some c ->
  (obterConfigRodada r w).1
  = Returned (Some {| numeroPizzasPlanejadas := parseInt (cfg_valor c);
                      tempoLimitePorPizza := Int 0 |}).
Proof. intros Hb Hl. revert Hb. run; intros; simplify_eq; reflexivity. Qed.

Lemma obterLimiteRodadas_stored w c :
  behaviour_at 0 w = Answers ->
  configuracoes (db w) !! "limite_total_rodadas" = Some c ->
  (obterLimiteRodadas w).1 = Returned (parseInt (cfg_valor c)).
Proof. intros Hb Hl. revert Hb. run; intros; simplify_eq; reflexivity. Qed.

(** C7, as stated, fails: 10^21 is an integer and a number, its string is
    '1e+21', and what is read back after saving it is 1. *)
Lemma round_trip_fails_at_1e21 :
  representable (10 ^ 21) /\
  exists w1 w2,
    salvarConfigRodada "r1" (Int (10 ^ 21)) mundo_vazio = (Returned tt, w1) /\
    (obterConfigRodada "r1" w1).1
      = Returned (Some {| numeroPizzasPlanejadas := Int 1; tempoLimitePorPizza := Int 0 |}) /\
    (obterConfigRodada "r1" w1).1
      <> Returned (Some {| numeroPizzasPlanejadas := Int (10 ^ 21);
                           tempoLimitePorPizza := Int 0 |}) /\
    salvarLimiteRodadas (Int (10 ^ 21)) mundo_vazio = (Returned tt, w2) /\
    (obterLimiteRodadas w2).1 = Returned (Int 1) /\
    (obterLimiteRodadas w2).1 <> Returned (Int (10 ^ 21)).
Proof.
  split; [by vm_compute|].
  eexists _, _. split; [by vm_compute|].
  split; [by vm_compute|]. split; [by vm_compute|].
  split; [by vm_compute|]. split; by vm_compute.
Qed.

(** C7, amended. For every integer n that is a number and lies strictly
    between -10^21 and 10^21: after a successful salvarConfigRodada(id, n),
    obterConfigRodada(id) answered by the store returns n and time limit 0;
    after a successful salvarLimiteRodadas(n), obterLimiteRodadas() answered
    by the store returns n. *)
Theorem save_then_read_round_trip (rodadaId : string) (z : Z) (w w1 : world) :
  representable z -> - 10 ^ 21 < z < 10 ^ 21 ->
  behaviour_at 0 w1 = Answers ->
  (salvarConfigRodada rodadaId (Int z) w = (Returned tt, w1) ->
   (obterConfigRodada rodadaId w1).1
   = Returned (Some {| numeroPizzasPlanejadas := Int z; tempoLimitePorPizza := Int 0 |})) /\
  (salvarLimiteRodadas (Int z) w = (Returned tt, w1) ->
   (obterLimiteRodadas w1).1 = Returned (Int z)).
Proof.
  intros Hrep Hz Hb. split; intros Hs.
  - apply salvarConfigRodada_written in Hs.
    rewrite (obterConfigRodada_especifica _ _ _ Hb Hs). simpl cfg_valor.
    by rewrite JSFacts.parseInt_toString.
  - apply salvarLimiteRodadas_written in Hs.
    rewrite (obterLimiteRodadas_stored _ _ Hb Hs). simpl cfg_valor.
    by rewrite JSFacts.parseInt_toString.
Qed.

Lemma save_then_read_round_trip_witness :
  representable 7 /\
  (obterConfigRodada "r1" (salvarConfigRodada "r1" (Int 7) mundo_vazio).2).1
    = Returned (Some {| numeroPizzasPlanejadas := Int 7; tempoLimitePorPizza := Int 0 |}) /\
  (obterLimiteRodadas (salvarLimiteRodadas (Int (-10)) mundo_vazio).2).1
    = Returned (Int (-10)).
Proof.
  split; [reflexivity|]. split.
  - apply (proj1 (save_then_read_round_trip "r1" 7 mundo_vazio
                    (salvarConfigRodada "r1" (Int 7) mundo_vazio).2
                    eq_refl (conj eq_refl eq_refl) eq_refl)).
    reflexivity.
  - apply (proj2 (save_then_read_round_trip "r1" (-10) mundo_vazio
                    (salvarLimiteRodadas (Int (-10)) mundo_vazio).2
                    eq_refl (conj eq_refl eq_refl) eq_refl)).
    reflexivity.
Defined.

Lemma saves_and_reads_frame_witness :
  (obterConfigRodada "r2"
     {| db := db (salvarConfigRodada "r1" (Int 7) mundo_historico).2; schedule := [] |}).1
  = (obterConfigRodada "r2" {| db := db mundo_historico; schedule := [] |}).1 /\
  configuracoes (db (salvarConfigRodada "r1" (Int 7) mundo_historico).2)
    !! chaveRodada "r1"
  = Some {| cfg_valor := "7"; cfg_descricao := descricaoRodada "r1" |}.
Proof.
  split.
  - apply (proj1 (proj2 (proj2 (proj2 (proj2 (proj2 saves_and_reads_frame)))))
             "r1" "r2" (Int 7) mundo_historico []).
    discriminate.
  - apply (proj1 (proj2 (proj1 (proj2 (proj2 (proj2 saves_and_reads_frame)))
                          "r1" (Int 7) mundo_historico))).
    reflexivity.
Defined.

End Props.

(** ** Further properties of the five functions *)

Module Extra.
Import JS Store RodadaConfig Spec Growth JSFacts Props.

#[local] Arguments parseInt : simpl never.
#[local] Arguments toString : simpl never.

(** *** What the calls evaluate to *)

(** The one row the history fetch hands over carries the greatest sequence
    number of the round. *)
Lemma top_row rodadaId d :
  (fun h => {| ordem := Int (hist_ordem h) |})
    <$> take 1 (merge_sort ordem_desc
                  (filter (da_rodada rodadaId) (historico_sabores_rodada d)))
  = match maximum (ordens rodadaId d) with
    | Some m => [ {| ordem := Int m |} ]
    | None => []
    end.
Proof.
  unfold ordens. rewrite <- top_is_maximum.
  by destruct (merge_sort ordem_desc _).
Qed.

Lemma obterConfigRodada_reads rodadaId d1 d2 sch :
  configuracoes d1 !! chaveRodada rodadaId = configuracoes d2 !! chaveRodada rodadaId ->
  configuracoes d1 !! "pizzas_planejadas_padrao"
    = configuracoes d2 !! "pizzas_planejadas_padrao" ->
  maximum (ordens rodadaId d1) = maximum (ordens rodadaId d2) ->
  (obterConfigRodada rodadaId {| db := d1; schedule := sch |}).1
  = (obterConfigRodada rodadaId {| db := d2; schedule := sch |}).1.
Proof.
  intros H1 H2 H3. unfold_async.
  repeat (rewrite ?lookup_tail, ?top_row, ?H1, ?H2, ?H3; simpl; try split_step);
    try reflexivity; by destruct (maximum (ordens rodadaId d2)).
Qed.

Lemma verificar_eval w :
  (verificarSeExcedeuLimiteRodadas w).1
  = Returned
      match behaviour_at 1 w with
      | Answers =>
          {| excedeu := ge (Int (finalizadas (db w))) (limite_lido w);
             totalRodadas := Int (finalizadas (db w));
             limite := limite_lido w |}
      | _ => {| excedeu := false; totalRodadas := Int 0; limite := Int 5 |}
      end.
Proof.
  unfold limite_lido, finalizadas. rewrite <- finalizadas_fetch.
  run; reflexivity.
Qed.

Lemma limite_lido_stored w c :
  behaviour_at 0 w = Answers ->
  configuracoes (db w) !! "limite_total_rodadas" = Some c ->
  limite_lido w = parseInt (cfg_valor c).
Proof.
  intros Hb Hl. unfold limite_lido. by rewrite (obterLimiteRodadas_stored w c Hb Hl).
Qed.

(** *** Saves, one after the other *)

(** X1. The last write wins: saving twice for the same round (or twice the
    limit) leaves the tables as the second save alone would, whatever the
    first value was. *)
Theorem salvar_last_write_wins (r : string) (n1 n2 : number) (w w1 w2 w2' : world) :
  (salvarConfigRodada r n1 w = (Returned tt, w1) ->
   salvarConfigRodada r n2 w1 = (Returned tt, w2) ->
   salvarConfigRodada r n2 w = (Returned tt, w2') ->
   db w2 = db w2') /\
  (salvarLimiteRodadas n1 w = (Returned tt, w1) ->
   salvarLimiteRodadas n2 w1 = (Returned tt, w2) ->
   salvarLimiteRodadas n2 w = (Returned tt, w2') ->
   db w2 = db w2').
Proof.
  split; run; intros; simplify_eq; simpl; f_equal; apply insert_insert_eq.
Qed.

Lemma salvar_last_write_wins_witness :
  db (salvarConfigRodada "r1" (Int 9) (salvarConfigRodada "r1" (Int 4) mundo_limite).2).2
  = db (salvarConfigRodada "r1" (Int 9) mundo_limite).2.
Proof.
  apply (proj1 (salvar_last_write_wins "r1" (Int 4) (Int 9) mundo_limite
                  (salvarConfigRodada "r1" (Int 4) mundo_limite).2
                  (salvarConfigRodada "r1" (Int 9)
                     (salvarConfigRodada "r1" (Int 4) mundo_limite).2).2
                  (salvarConfigRodada "r1" (Int 9) mundo_limite).2));
    reflexivity.
Defined.

(** X2. Saves of different keys commute: saving the configurations of two
    different rounds, or a round's configuration and the limit, gives the
    same tables in either order. *)
Theorem salvar_commute (r1 r2 : string) (n1 n2 : number) (w wa wab wb wba : world) :
  (r1 <> r2 ->
   salvarConfigRodada r1 n1 w = (Returned tt, wa) ->
   salvarConfigRodada r2 n2 wa = (Returned tt, wab) ->
   salvarConfigRodada r2 n2 w = (Returned tt, wb) ->
   salvarConfigRodada r1 n1 wb = (Returned tt, wba) ->
   db wab = db wba) /\
  (salvarConfigRodada r1 n1 w = (Returned tt, wa) ->
   salvarLimiteRodadas n2 wa = (Returned tt, wab) ->
   salvarLimiteRodadas n2 w = (Returned tt, wb) ->
   salvarConfigRodada r1 n1 wb = (Returned tt, wba) ->
   db wab = db wba).
Proof.
  split.
  - intros Hne.
    assert (chaveRodada r1 <> chaveRodada r2)
      by (intros H; by apply chaveRodada_inj in H).
    run; intros; simplify_eq; simpl; f_equal; by apply insert_insert_ne.
  - pose proof (chaveRodada_not_limite r1).
    run; intros; simplify_eq; simpl; f_equal; by apply insert_insert_ne.
Qed.

Lemma salvar_commute_witness :
  db (salvarConfigRodada "r2" (Int 9) (salvarConfigRodada "r1" (Int 4) mundo_limite).2).2
  = db (salvarConfigRodada "r1" (Int 4) (salvarConfigRodada "r2" (Int 9) mundo_limite).2).2.
Proof.
  apply (proj1 (salvar_commute "r1" "r2" (Int 4) (Int 9) mundo_limite
                  (salvarConfigRodada "r1" (Int 4) mundo_limite).2
                  (salvarConfigRodada "r2" (Int 9)
                     (salvarConfigRodada "r1" (Int 4) mundo_limite).2).2
                  (salvarConfigRodada "r2" (Int 9) mundo_limite).2
                  (salvarConfigRodada "r1" (Int 4)
                     (salvarConfigRodada "r2" (Int 9) mundo_limite).2).2));
    [discriminate | reflexivity..].
Defined.



(** *** Requests *)

Lemma tail_drop {A} (l : list A) :
  tail l = drop 1 l /\ tail (tail l) = drop 2 l /\ tail (tail (tail l)) = drop 3 l.
Proof. by destruct l as [|? [|? [|? ?]]]. Qed.

(** X3. Each call issues its requests one after the other and no more than
    it needs: [obterConfigRodada] between one and three, only one when the
    store answers with the round's own entry and two when it answers with
    the global entry after that; the limit read and each save exactly one;
    the limit check exactly two. *)
Theorem requests_issued (w : world) :
  (forall r, exists n, (1 <= n <= 3)%nat /\
             schedule (obterConfigRodada r w).2 = drop n (schedule w)) /\
  (forall r c, behaviour_at 0 w = Answers ->
               configuracoes (db w) !! chaveRodada r = Some c ->
               schedule (obterConfigRodada r w).2 = drop 1 (schedule w)) /\
  (forall r c, behaviour_at 0 w = Answers -> behaviour_at 1 w = Answers ->
               configuracoes (db w) !! chaveRodada r = None ->
               configuracoes (db w) !! "pizzas_planejadas_padrao" = Some c ->
               schedule (obterConfigRodada r w).2 = drop 2 (schedule w)) /\
  schedule (obterLimiteRodadas w).2 = drop 1 (schedule w) /\
  schedule (verificarSeExcedeuLimiteRodadas w).2 = drop 2 (schedule w) /\
  (forall r n, schedule (salvarConfigRodada r n w).2 = drop 1 (schedule w)) /\
  (forall n, schedule (salvarLimiteRodadas n w).2 = drop 1 (schedule w)).
Proof.
  split.
  { intros r. run;
      first [ exists 1%nat; split; [lia|]; apply tail_drop
            | exists 2%nat; split; [lia|]; apply tail_drop
            | exists 3%nat; split; [lia|]; apply tail_drop ]. }
  destruct (tail_drop (schedule w)) as (T1 & T2 & _). rewrite <- T1, <- T2.
  repeat split; intros; run; intros; simplify_eq; reflexivity.
Qed.

Lemma requests_issued_witness :
  schedule (obterConfigRodada "r1"
              {| db := db mundo_doze; schedule := [Answers; Fails not_found; Answers] |}).2
  = [Fails not_found; Answers].
Proof.
  apply (proj1 (proj2 (requests_issued
                         {| db := db mundo_doze;
                            schedule := [Answers; Fails not_found; Answers] |}))
           "r1" (Configuracao "12" "teste")); reflexivity.
Defined.

(** *** The limit check *)

Lemma radixDigit_not_digit c : isDigit c = false -> radixDigit 10 c = None.
Proof.
  unfold isDigit, radixDigit, digitValue. intros H.
  destruct (48 <=? charCode c) eqn:E1, (charCode c <=? 57) eqn:E2; simpl in *;
    try discriminate;
    repeat match goal with
           | |- context [if ?b then _ else _] => destruct b eqn:?; simpl
           end; try reflexivity;
    repeat match goal with
           | H : (_ <=? _) = true |- _ => apply Z.leb_le in H
           | H : (_ <=? _) = false |- _ => apply Z.leb_gt in H
           | H : (_ && _) = true |- _ => apply andb_true_iff in H as [? ?]
           | H : (_ <? _) = true |- _ => apply Z.ltb_lt in H
           end; lia.
Qed.

Lemma parseInt_semNumero s : semNumero s = true -> parseInt s = NaN.
Proof.
  destruct s as [|c rest]; [reflexivity|]. cbn [semNumero]. intros H.
  apply andb_true_iff in H as [H Hp]. apply andb_true_iff in H as [H Hm].
  apply andb_true_iff in H as [Hd Hw].
  apply negb_true_iff in Hp, Hm, Hd, Hw.
  unfold parseInt. cbn [trimStart]. rewrite Hw. cbn [splitSign]. rewrite Hm, Hp.
  assert (Hs : stripPrefix (String c rest) = (10, String c rest)).
  { unfold stripPrefix. destruct rest as [|c1 rest]; [reflexivity|].
    destruct (charCode c =? 48) eqn:E; [|reflexivity].
    apply Z.eqb_eq in E. unfold isDigit in Hd. rewrite E in Hd. discriminate. }
  rewrite Hs. cbn [digitPrefix]. by rewrite radixDigit_not_digit.
Qed.

Lemma ge_succ n l : ge (Int n) l = true -> ge (Int (n + 1)) l = true.
Proof.
  destruct l as [|[]|z]; simpl; try done.
  intros H. apply Z.leb_le in H. apply Z.leb_le. lia.
Qed.

(** X4. A limit that cannot be used as one. When the stored limit has no
    number at its start (empty, or beginning with a character that is no
    digit, sign or white space) it is read as NaN and the check never
    reports the limit exceeded, however many rounds are finalised; when it
    reads as zero or a negative integer the check always reports it
    exceeded, with no round at all. *)
Theorem unusable_limits (w : world) (c : configuracao) :
  behaviour_at 0 w = Answers -> behaviour_at 1 w = Answers ->
  configuracoes (db w) !! "limite_total_rodadas" = Some c ->
  (semNumero (cfg_valor c) = true ->
   (verificarSeExcedeuLimiteRodadas w).1
   = Returned {| excedeu := false; totalRodadas := Int (finalizadas (db w));
                 limite := NaN |}) /\
  (forall z, parseInt (cfg_valor c) = Int z -> z <= 0 ->
   (verificarSeExcedeuLimiteRodadas w).1
   = Returned {| excedeu := true; totalRodadas := Int (finalizadas (db w));
                 limite := Int z |}).
Proof.
  intros H0 H1 Hl. rewrite verificar_eval, H1, (limite_lido_stored w c H0 Hl).
  split.
  - intros Hs. by rewrite (parseInt_semNumero _ Hs).
  - intros z -> Hz. simpl. do 2 f_equal.
    apply Z.leb_le. unfold finalizadas. lia.
Qed.

Lemma unusable_limits_witness :
  (verificarSeExcedeuLimiteRodadas mundo_limite_texto).1
  = Returned {| excedeu := false; totalRodadas := Int 3; limite := NaN |} /\
  (verificarSeExcedeuLimiteRodadas mundo_limite_negativo).1
  = Returned {| excedeu := true; totalRodadas := Int 0; limite := Int (-2) |}.
Proof.
  split.
  - apply (proj1 (unusable_limits mundo_limite_texto (Configuracao "cinco" "limite")
                    eq_refl eq_refl eq_refl)).
    reflexivity.
  - apply (proj2 (unusable_limits mundo_limite_negativo (Configuracao "-2" "limite")
                    eq_refl eq_refl eq_refl) (-2)); [reflexivity | lia].
Defined.

(** X5. Only finalised rounds count. One more round that is not finalised
    changes nothing in what the check returns; one more finalised round,
    when the rounds are fetched, raises totalRodadas by one, keeps the limit,
    and never turns an exceeded limit into one that is not. *)
Theorem only_finalised_rounds_count (r : rodada) (d : database) (sch : list behaviour) :
  (rodada_status r <> "finalizada" ->
   (verificarSeExcedeuLimiteRodadas {| db := com_rodada r d; schedule := sch |}).1
   = (verificarSeExcedeuLimiteRodadas {| db := d; schedule := sch |}).1) /\
  (rodada_status r = "finalizada" ->
   behaviour_at 1 {| db := d; schedule := sch |} = Answers ->
   exists n lim,
     (verificarSeExcedeuLimiteRodadas {| db := d; schedule := sch |}).1
     = Returned {| excedeu := ge (Int n) lim; totalRodadas := Int n; limite := lim |} /\
     (verificarSeExcedeuLimiteRodadas {| db := com_rodada r d; schedule := sch |}).1
     = Returned {| excedeu := ge (Int (n + 1)) lim; totalRodadas := Int (n + 1);
                   limite := lim |} /\
     (ge (Int n) lim = true -> ge (Int (n + 1)) lim = true)).
Proof.
  assert (Hlim : limite_lido {| db := com_rodada r d; schedule := sch |}
                 = limite_lido {| db := d; schedule := sch |}).
  { unfold limite_lido. by rewrite (obterLimiteRodadas_depends (com_rodada r d) d sch). }
  split.
  - intros Hr. rewrite !verificar_eval, Hlim.
    change (behaviour_at 1 {| db := com_rodada r d; schedule := sch |})
      with (behaviour_at 1 {| db := d; schedule := sch |}).
    assert (Hf : finalizadas (com_rodada r d) = finalizadas d).
    { unfold finalizadas, com_rodada. simpl rodadas.
      rewrite filter_cons. unfold rodada_finalizada at 1.
      by destruct (decide (rodada_status r = "finalizada")). }
    cbn [db]. by rewrite Hf.
  - intros Hr Hb. exists (finalizadas d), (limite_lido {| db := d; schedule := sch |}).
    rewrite !verificar_eval, Hlim.
    change (behaviour_at 1 {| db := com_rodada r d; schedule := sch |})
      with (behaviour_at 1 {| db := d; schedule := sch |}).
    rewrite Hb. cbn [db].
    assert (Hf : finalizadas (com_rodada r d) = finalizadas d + 1).
    { unfold finalizadas, com_rodada. simpl rodadas.
      rewrite filter_cons. unfold rodada_finalizada at 1.
      destruct (decide (rodada_status r = "finalizada")); [|done].
      rewrite length_cons. lia. }
    rewrite Hf. repeat split. apply ge_succ.
Qed.

Lemma only_finalised_rounds_count_witness :
  (verificarSeExcedeuLimiteRodadas
     {| db := com_rodada (Rodada 5 "criada") (db mundo_limite); schedule := [] |}).1
  = Returned {| excedeu := true; totalRodadas := Int 3; limite := Int 3 |} /\
  exists n lim,
    (verificarSeExcedeuLimiteRodadas
       {| db := com_rodada (Rodada 5 "finalizada") (db mundo_limite); schedule := [] |}).1
    = Returned {| excedeu := ge (Int (n + 1)) lim; totalRodadas := Int (n + 1);
                  limite := lim |}.
Proof.
  split.
  - rewrite (proj1 (only_finalised_rounds_count (Rodada 5 "criada") (db mundo_limite) []));
      [reflexivity | discriminate].
  - destruct (proj2 (only_finalised_rounds_count (Rodada 5 "finalizada")
                       (db mundo_limite) []) eq_refl eq_refl)
      as (n & lim & _ & H & _).
    exists n, lim. exact H.
Defined.

(** X6. What the check returns hangs together, the fallback of its [catch]
    included: totalRodadas is an integer from 0 to the number of rounds in
    the table, and excedeu is exactly totalRodadas >= limite. *)
Theorem verificar_result_consistent (w : world) (v : Verificacao) (w' : world) :
  verificarSeExcedeuLimiteRodadas w = (Returned v, w') ->
  excedeu v = ge (totalRodadas v) (limite v) /\
  exists n, totalRodadas v = Int n /\ 0 <= n <= Z.of_nat (length (rodadas (db w))).
Proof.
  intros H. assert (Hv : (verificarSeExcedeuLimiteRodadas w).1 = Returned v) by (by rewrite H).
  rewrite verificar_eval in Hv. injection Hv as <-.
  destruct (behaviour_at 1 w); simpl; (split; [reflexivity|]).
  - exists (finalizadas (db w)). split; [done|]. unfold finalizadas.
    pose proof (length_filter rodada_finalizada (rodadas (db w))). lia.
  - exists 0. split; [done|]. lia.
  - exists 0. split; [done|]. lia.
Qed.

Lemma verificar_result_consistent_witness :
  true = ge (Int 3) (Int 3) /\
  exists n, Int 3 = Int n /\ 0 <= n <= Z.of_nat (length (rodadas (db mundo_limite))).
Proof.
  apply (verificar_result_consistent mundo_limite
           {| excedeu := true; totalRodadas := Int 3; limite := Int 3 |}
           {| db := db mundo_limite; schedule := [] |}).
  reflexivity.
Defined.

Lemma obterLimiteRodadas_reads_limit d1 d2 sch :
  configuracoes d1 !! "limite_total_rodadas" = configuracoes d2 !! "limite_total_rodadas" ->
  limite_lido {| db := d1; schedule := sch |} = limite_lido {| db := d2; schedule := sch |}.
Proof. intros H. unfold limite_lido. by rewrite (obterLimiteRodadas_depends d1 d2 sch H). Qed.

Lemma finalizadas_perm l1 l2 :
  l1 ≡ₚ l2 -> length (filter rodada_finalizada l1) = length (filter rodada_finalizada l2).
Proof. intros H. by rewrite H. Qed.

(** X10. The limit check looks at nothing but the entry
    'limite_total_rodadas' and the rows of [rodadas], in whatever order they
    are kept: two stores that agree on these give the same result. In
    particular saving the configuration of a round does not change what the
    check returns. *)
Theorem verificar_reads_only (d1 d2 : database) (sch : list behaviour) :
  (configuracoes d1 !! "limite_total_rodadas" = configuracoes d2 !! "limite_total_rodadas" ->
   rodadas d1 ≡ₚ rodadas d2 ->
   (verificarSeExcedeuLimiteRodadas {| db := d1; schedule := sch |}).1
   = (verificarSeExcedeuLimiteRodadas {| db := d2; schedule := sch |}).1) /\
  (forall r n w,
     d1 = db (salvarConfigRodada r n w).2 -> d2 = db w ->
     (verificarSeExcedeuLimiteRodadas {| db := d1; schedule := sch |}).1
     = (verificarSeExcedeuLimiteRodadas {| db := d2; schedule := sch |}).1).
Proof.
  assert (Hgen : forall a b,
             configuracoes a !! "limite_total_rodadas"
             = configuracoes b !! "limite_total_rodadas" ->
             rodadas a ≡ₚ rodadas b ->
             (verificarSeExcedeuLimiteRodadas {| db := a; schedule := sch |}).1
             = (verificarSeExcedeuLimiteRodadas {| db := b; schedule := sch |}).1).
  { intros a b Hc Hr. rewrite !verificar_eval.
    rewrite (obterLimiteRodadas_reads_limit a b sch Hc).
    change (behaviour_at 1 {| db := a; schedule := sch |})
      with (behaviour_at 1 {| db := b; schedule := sch |}).
    unfold finalizadas. cbn [db]. by rewrite (finalizadas_perm _ _ Hr). }
  split; [apply Hgen|].
  intros r n w -> ->.
  destruct (salvarConfigRodada_so_muda r n w) as (Hk & _ & Hr).
  apply Hgen; [|by rewrite Hr].
  apply Hk. intros H; symmetry in H; by apply chaveRodada_not_limite in H.
Qed.

Lemma verificar_reads_only_witness :
  (verificarSeExcedeuLimiteRodadas
     {| db := db (salvarConfigRodada "r1" (Int 4) mundo_limite).2; schedule := [] |}).1
  = (verificarSeExcedeuLimiteRodadas {| db := db mundo_limite; schedule := [] |}).1.
Proof.
  apply (proj2 (verificar_reads_only (db (salvarConfigRodada "r1" (Int 4) mundo_limite).2)
                  (db mundo_limite) []) "r1" (Int 4) mundo_limite);
    reflexivity.
Defined.

(** X9. Setting the limit, then checking. After a successful
    salvarLimiteRodadas(m), for an integer m that is a number with
    -10^21 < m < 10^21, a check answered by the store returns m as limite,
    the count of finalised rounds as totalRodadas, and excedeu true exactly
    when that count is at least m. *)
Theorem set_limit_then_check (z : Z) (w w1 : world) :
  representable z -> - 10 ^ 21 < z < 10 ^ 21 ->
  salvarLimiteRodadas (Int z) w = (Returned tt, w1) ->
  behaviour_at 0 w1 = Answers -> behaviour_at 1 w1 = Answers ->
  (verificarSeExcedeuLimiteRodadas w1).1
  = Returned {| excedeu := bool_decide (z <= finalizadas (db w));
                totalRodadas := Int (finalizadas (db w));
                limite := Int z |}.
Proof.
  intros Hrep Hz Hs H0 H1.
  assert (Hr : rodadas (db w1) = rodadas (db w)).
  { pose proof (salvarLimiteRodadas_so_muda (Int z) w) as (_ & _ & Hr).
    by rewrite Hs in Hr. }
  apply salvarLimiteRodadas_written in Hs.
  rewrite verificar_eval, H1, (limite_lido_stored w1 _ H0 Hs). cbn [cfg_valor].
  rewrite (parseInt_toString z Hrep Hz). unfold finalizadas. rewrite Hr. simpl ge.
  do 2 f_equal. destruct (Z.leb_spec z (Z.of_nat (length (filter rodada_finalizada (rodadas (db w))))));
    symmetry; [by apply bool_decide_eq_true | apply bool_decide_eq_false; lia].
Qed.

Lemma set_limit_then_check_witness :
  (verificarSeExcedeuLimiteRodadas (salvarLimiteRodadas (Int 4) mundo_limite).2).1
  = Returned {| excedeu := false; totalRodadas := Int 3; limite := Int 4 |}.
Proof.
  apply (set_limit_then_check 4 mundo_limite (salvarLimiteRodadas (Int 4) mundo_limite).2
           eq_refl (conj eq_refl eq_refl) eq_refl eq_refl eq_refl).
Defined.

(** *** The history of a round *)

(** X7. [obterConfigRodada] for a round looks at nothing but the two entries
    it reads and the records of that round, in whatever order they are kept:
    stores that agree on these give the same result, whatever the store
    does. Records of other rounds make no difference. *)
Theorem obterConfigRodada_reads_only (rodadaId : string) (d1 d2 : database)
    (sch : list behaviour) :
  (configuracoes d1 !! chaveRodada rodadaId = configuracoes d2 !! chaveRodada rodadaId ->
   configuracoes d1 !! "pizzas_planejadas_padrao"
     = configuracoes d2 !! "pizzas_planejadas_padrao" ->
   filter (da_rodada rodadaId) (historico_sabores_rodada d1)
     ≡ₚ filter (da_rodada rodadaId) (historico_sabores_rodada d2) ->
   (obterConfigRodada rodadaId {| db := d1; schedule := sch |}).1
   = (obterConfigRodada rodadaId {| db := d2; schedule := sch |}).1) /\
  (forall h, hist_rodada_id h <> rodadaId -> d1 = com_historico h d2 ->
   (obterConfigRodada rodadaId {| db := d1; schedule := sch |}).1
   = (obterConfigRodada rodadaId {| db := d2; schedule := sch |}).1).
Proof.
  split.
  - intros H1 H2 H3. apply obterConfigRodada_reads; [done..|].
    unfold ordens. apply maximum_perm. by apply fmap_Permutation.
  - intros h Hh ->. apply obterConfigRodada_reads; [done..|].
    unfold ordens, com_historico. cbn [historico_sabores_rodada].
    rewrite filter_cons. unfold da_rodada at 1.
    by destruct (decide (hist_rodada_id h = rodadaId)).
Qed.

Lemma obterConfigRodada_reads_only_witness :
  (obterConfigRodada "r1"
     {| db := com_historico (HistoricoSabor "r2" 40) (db mundo_historico);
        schedule := [] |}).1
  = (obterConfigRodada "r1" {| db := db mundo_historico; schedule := [] |}).1.
Proof.
  apply (proj2 (obterConfigRodada_reads_only "r1"
                  (com_historico (HistoricoSabor "r2" 40) (db mundo_historico))
                  (db mundo_historico) []) (HistoricoSabor "r2" 40));
    [discriminate | reflexivity].
Defined.

(** X8. With neither entry stored and the store answering, the planned
    number follows the history: after one more record for the round it is
    the greater of the new sequence number and the greatest recorded so far
    (the new number itself when there was none). *)
Theorem history_raises_planned (h : historico_sabor) (d : database) (sch : list behaviour) :
  configuracoes d !! chaveRodada (hist_rodada_id h) = None ->
  configuracoes d !! "pizzas_planejadas_padrao" = None ->
  (forall i, behaviour_at i {| db := d; schedule := sch |} = Answers) ->
  (obterConfigRodada (hist_rodada_id h)
     {| db := com_historico h d; schedule := sch |}).1
  = Returned (Some {| numeroPizzasPlanejadas :=
                        Int (match maximum (ordens (hist_rodada_id h) d) with
                             | Some m => Z.max (hist_ordem h) m
                             | None => hist_ordem h
                             end);
                      tempoLimitePorPizza := Int 0 |}).
Proof.
  intros H1 H2 Hb.
  assert (Hb' : forall i, behaviour_at i {| db := com_historico h d; schedule := sch |}
                          = Answers) by exact Hb.
  rewrite obterConfigRodada_chain by (intros x; rewrite Hb'; discriminate).
  unfold fonte_config, fonte_historico. rewrite !Hb'.
  cbn [db com_historico configuracoes]. rewrite H1, H2. cbn [fmap option_fmap option_map primeiraFonte].
  unfold ordens.
  change (historico_sabores_rodada (com_historico h d))
    with (h :: historico_sabores_rodada d).
  rewrite filter_cons. unfold da_rodada at 1.
  destruct (decide (hist_rodada_id h = hist_rodada_id h)); [|done].
  rewrite fmap_cons, maximum_cons.
  by destruct (maximum _).
Qed.

Lemma history_raises_planned_witness :
  (obterConfigRodada "r1"
     {| db := com_historico (HistoricoSabor "r1" 11) (db mundo_historico);
        schedule := [] |}).1
  = Returned (Some {| numeroPizzasPlanejadas := Int 11; tempoLimitePorPizza := Int 0 |}).
Proof.
  apply (history_raises_planned (HistoricoSabor "r1" 11) (db mundo_historico) []);
    reflexivity.
Defined.

(** *** Numbers that do not survive the string *)

Lemma F_digit d : digit d -> F d = Int d.
Proof. intros H. digit_cases d H; reflexivity. Qed.

Lemma mathInt_single d : mathInt 10 [d] = d.
Proof. unfold mathInt. simpl. lia. Qed.

(** A digit followed by a character that is no digit and no x: [parseInt]
    reads the digit. *)
Lemma parseInt_leading_digit d c1 rest :
  digit d -> isDigit c1 = false -> isX c1 = false ->
  parseInt (String (digitChar d) (String c1 rest)) = Int d /\
  parseInt (String "-" (String (digitChar d) (String c1 rest))) = Int (- d).
Proof.
  intros Hd Hc1 Hx.
  destruct (digitChar_plain d Hd) as (Hw & Hm & Hp & _ & Hr).
  assert (Hs : stripPrefix (String (digitChar d) (String c1 rest))
               = (10, String (digitChar d) (String c1 rest))).
  { cbn [stripPrefix]. by rewrite Hx, andb_false_r. }
  assert (Hdp : digitPrefix 10 (String (digitChar d) (String c1 rest)) = [d]).
  { cbn [digitPrefix]. by rewrite Hr, (radixDigit_not_digit c1 Hc1). }
  split; unfold parseInt.
  - cbn [trimStart]. rewrite Hw. cbn [splitSign]. rewrite Hm, Hp, Hs, Hdp.
    rewrite mathInt_single, Z.mul_1_l. by apply F_digit.
  - change (trimStart (String "-" (String (digitChar d) (String c1 rest))))
      with (String "-" (String (digitChar d) (String c1 rest))).
    change (splitSign (String "-" (String (digitChar d) (String c1 rest))))
      with (-1, String (digitChar d) (String c1 rest)).
    cbv beta iota. rewrite Hs, Hdp, mathInt_single.
    replace (-1 * d) with (- d) by lia.
    apply F_opp. by apply F_digit.
Qed.

Lemma stripZeros_pos fuel : forall v, 0 < v -> 0 < stripZeros fuel v.
Proof.
  induction fuel as [|fuel IH]; intros v Hv; [exact Hv|].
  cbn [stripZeros]. destruct (Z.eqb_spec (v mod 10) 0) as [Hm|]; [|exact Hv].
  destruct (v =? 0); [exact Hv|]. cbn [andb negb].
  apply IH. pose proof (Z.div_mod v 10 ltac:(lia)). lia.
Qed.

(** The decimal string of a positive integer begins with a digit from 1 to 9. *)
Lemma decimalDigits_leading fuel :
  forall v acc,
    0 < v < 2 ^ Z.of_nat (S fuel) ->
    exists d ds,
      Forall digit (d :: ds) /\ 1 <= d /\
      decimalDigits (S fuel) v (digitsToString acc) = digitsToString ((d :: ds) ++ acc)%list.
Proof.
  induction fuel as [|fuel IH]; intros v acc Hv;
    (assert (Hd : digit (v mod 10))
       by (unfold digit; pose proof (Z.mod_pos_bound v 10); lia));
    rewrite decimalDigits_S; destruct (Z.eqb_spec (v / 10) 0) as [Hz|Hz];
    try (exists (v mod 10), []; split; [by apply Forall_singleton|split; [|reflexivity]];
         pose proof (Z.div_mod v 10); lia).
  - change (2 ^ Z.of_nat 1) with 2 in Hv.
    exfalso. apply Hz. apply Z.div_small. lia.
  - destruct (IH (v / 10) (v mod 10 :: acc)) as (d & ds & HF & H1 & Hstr).
    { rewrite Nat2Z.inj_succ, Z.pow_succ_r in Hv by lia.
      assert (0 <= v / 10) by (apply Z.div_pos; lia).
      split; [lia|]. apply Z.div_lt_upper_bound; lia. }
    exists d, (ds ++ [v mod 10])%list. split; [|split; [exact H1|]].
    + change (Forall digit ((d :: ds) ++ [v mod 10])).
      apply Forall_app; split; [done | by apply Forall_singleton].
    + rewrite Hstr. f_equal. simpl. by rewrite <- app_assoc.
Qed.

Lemma decimal_leading v :
  0 < v ->
  exists d ds, Forall digit (d :: ds) /\ 1 <= d /\ decimal v = digitsToString (d :: ds).
Proof.
  intros Hv. unfold decimal.
  destruct (decimalDigits_leading (Z.to_nat (Z.log2 v)) v []) as (d & ds & HF & H1 & Hstr).
  { split; [done|]. rewrite Nat2Z.inj_succ, Z2Nat.id by apply Z.log2_nonneg.
    apply Z.log2_spec. lia. }
  exists d, ds. repeat split; [done..|].
  change EmptyString with (digitsToString []). rewrite Hstr. by rewrite app_nil_r.
Qed.

(** What [exponential] writes is in exponent notation, and [parseInt] reads
    its leading digit, with the sign in front if there is one. *)
Lemma exponential_reads_digit c :
  0 < c ->
  exists d, 1 <= d <= 9 /\ notacaoExpoente d (exponential c) /\
            parseInt (exponential c) = Int d /\
            parseInt ("-" +:+ exponential c) = Int (- d).
Proof.
  intros Hc. unfold exponential.
  destruct (decimal_leading (stripZeros (Z.to_nat (exponent10 c)) c))
    as (d & ds & HF & H1 & ->).
  { by apply stripZeros_pos. }
  apply Forall_cons in HF as [Hd _]. exists d.
  split; [unfold digit in Hd; lia|].
  destruct ds as [|d1 ds]; cbn [digitsToString foldr]; (split; [|by apply parseInt_leading_digit]).
  - exists "e"%char, ("+" +:+ decimal (exponent10 c)). split; [reflexivity|by right].
  - eexists "."%char, _. split; [reflexivity|by left].
Qed.

Lemma shortest_lower x e fuel :
  0 <= e -> 10 ^ e <= x ->
  forall j, 0 <= j <= e -> 10 ^ e <= shortest fuel x (10 ^ j).
Proof.
  intros He Hlo.
  induction fuel as [|fuel IH]; intros j Hj; [exact Hlo|].
  set (p := 10 ^ j).
  assert (Hp : 0 < p) by (apply Z.pow_pos_nonneg; lia).
  assert (Hsplit : 10 ^ e = p * 10 ^ (e - j)).
  { subst p. rewrite <- Z.pow_add_r by lia. f_equal; lia. }
  assert (HK : 0 < 10 ^ (e - j)) by (apply Z.pow_pos_nonneg; lia).
  assert (Hq : 10 ^ (e - j) <= x / p) by (apply Z.div_le_lower_bound; lia).
  assert (Hlo' : 10 ^ e <= x / p * p) by nia.
  cbn [shortest]. fold p.
  repeat case_match; try lia.
  assert (j <> 0) by (intros ->; subst p; simpl in *; lia).
  replace (p / 10) with (10 ^ (j - 1)).
  - apply IH. lia.
  - subst p. replace j with (Z.succ (j - 1)) at 2 by lia.
    rewrite Z.pow_succ_r by lia. symmetry. rewrite Z.mul_comm. apply Z.div_mul. lia.
Qed.

Lemma toString_huge_reads_digit z :
  10 ^ 21 <= Z.abs z ->
  exists d s, 1 <= d <= 9 /\ notacaoExpoente d s /\
              toString (Int z) = sinal z +:+ s /\
              parseInt (toString (Int z)) = Int (Z.sgn z * d).
Proof.
  intros Hz.
  assert (H21 : 0 < 10 ^ 21) by (by vm_compute).
  assert (Hbig : forall x, 10 ^ 21 <= x -> positiveToString x = exponential (shortestDecimal x)
                                           /\ 0 < shortestDecimal x).
  { intros x Hx. unfold positiveToString.
    destruct (exponent10_spec x ltac:(lia)) as (He & Hlo & Hhi).
    assert (H21e : 21 <= exponent10 x).
    { assert (21 < exponent10 x + 1); [|lia].
      apply (Z.pow_lt_mono_r_iff 10); lia. }
    assert (Hc : 10 ^ exponent10 x <= shortestDecimal x).
    { unfold shortestDecimal. apply (shortest_lower x (exponent10 x)); lia. }
    assert (Hle : 10 ^ 21 <= 10 ^ exponent10 x) by (apply Z.pow_le_mono_r; lia).
    destruct (Z.ltb_spec (shortestDecimal x) (10 ^ 21)); [lia|]. split; [reflexivity|lia]. }
  unfold toString, sinal.
  destruct (Z.eqb_spec z 0) as [->|Hz0]; [simpl in Hz; lia|].
  destruct (Z.ltb_spec z 0) as [Hneg|Hpos].
  - destruct (Hbig (- z) ltac:(lia)) as [-> Hc].
    destruct (exponential_reads_digit _ Hc) as (d & Hd & Hn & _ & Hm).
    exists d, (exponential (shortestDecimal (- z))).
    split; [exact Hd|]. split; [exact Hn|]. split; [reflexivity|].
    rewrite Hm. f_equal. rewrite Z.sgn_neg by lia. lia.
  - destruct (Hbig z ltac:(lia)) as [-> Hc].
    destruct (exponential_reads_digit _ Hc) as (d & Hd & Hn & Hp & _).
    exists d, (exponential (shortestDecimal z)).
    split; [exact Hd|]. split; [exact Hn|]. split; [reflexivity|].
    rewrite Hp. f_equal. rewrite Z.sgn_pos by lia. lia.
Qed.

(** X11. Integers of 22 digits or more do not survive the string: for every
    integer n with |n| >= 10^21, toString writes n in exponent notation (a
    minus sign if n is negative, a leading digit d from 1 to 9, then a
    decimal point or the letter e), and reading after a successful save
    returns that leading digit with the sign of n, for the round's
    configuration and for the limit. *)
Theorem huge_integers_read_back_as_a_digit (r : string) (z : Z) (w w1 : world) :
  10 ^ 21 <= Z.abs z ->
  behaviour_at 0 w1 = Answers ->
  exists d s,
    1 <= d <= 9 /\ notacaoExpoente d s /\
    toString (Int z) = sinal z +:+ s /\
    (salvarConfigRodada r (Int z) w = (Returned tt, w1) ->
     (obterConfigRodada r w1).1
     = Returned (Some {| numeroPizzasPlanejadas := Int (Z.sgn z * d);
                         tempoLimitePorPizza := Int 0 |})) /\
    (salvarLimiteRodadas (Int z) w = (Returned tt, w1) ->
     (obterLimiteRodadas w1).1 = Returned (Int (Z.sgn z * d))).
Proof.
  intros Hz Hb. destruct (toString_huge_reads_digit z Hz) as (d & s & Hd & Hn & Hstr & Hp).
  exists d, s. split; [exact Hd|]. split; [exact Hn|]. split; [exact Hstr|].
  split; intros Hs.
  - apply salvarConfigRodada_written in Hs.
    rewrite (obterConfigRodada_especifica _ _ _ Hb Hs). cbn [cfg_valor]. by rewrite Hp.
  - apply salvarLimiteRodadas_written in Hs.
    rewrite (obterLimiteRodadas_stored _ _ Hb Hs). cbn [cfg_valor]. by rewrite Hp.
Qed.

Lemma huge_integers_read_back_as_a_digit_witness :
  exists d s,
    1 <= d <= 9 /\ notacaoExpoente d s /\
    "-1.1805916207174113e+21" = "-" +:+ s /\
    (obterLimiteRodadas (salvarLimiteRodadas (Int (- 2 ^ 70)) mundo_vazio).2).1
    = Returned (Int (- d)).
Proof.
  assert (H1 : 10 ^ 21 <= Z.abs (- 2 ^ 70)) by (by vm_compute).
  destruct (huge_integers_read_back_as_a_digit "r1" (- 2 ^ 70) mundo_vazio
              (salvarLimiteRodadas (Int (- 2 ^ 70)) mundo_vazio).2 H1 eq_refl)
    as (d & s & Hd & Hn & Hstr & _ & H).
  exists d, s. split; [exact Hd|]. split; [exact Hn|]. split; [exact Hstr|].
  rewrite (H eq_refl). reflexivity.
Defined.

(** X12. A number that is not finite does not survive the string either:
    after saving NaN or an infinity, the configuration and the limit read
    back are NaN, and a check answered by the store then never reports the
    limit exceeded. *)
Theorem non_finite_reads_back_NaN (r : string) (n : number) (w w1 : world) :
  nao_finito n ->
  behaviour_at 0 w1 = Answers ->
  (salvarConfigRodada r n w = (Returned tt, w1) ->
   (obterConfigRodada r w1).1
   = Returned (Some {| numeroPizzasPlanejadas := NaN; tempoLimitePorPizza := Int 0 |})) /\
  (salvarLimiteRodadas n w = (Returned tt, w1) ->
   (obterLimiteRodadas w1).1 = Returned NaN /\
   (behaviour_at 1 w1 = Answers ->
    (verificarSeExcedeuLimiteRodadas w1).1
    = Returned {| excedeu := false; totalRodadas := Int (finalizadas (db w1));
                  limite := NaN |})).
Proof.
  intros Hn Hb.
  assert (Hp : parseInt (toString n) = NaN) by (by destruct n as [|[]|]).
  split; intros Hs.
  - apply salvarConfigRodada_written in Hs.
    rewrite (obterConfigRodada_especifica _ _ _ Hb Hs). cbn [cfg_valor]. by rewrite Hp.
  - apply salvarLimiteRodadas_written in Hs. split.
    + rewrite (obterLimiteRodadas_stored _ _ Hb Hs). cbn [cfg_valor]. by rewrite Hp.
    + intros H1. rewrite verificar_eval, H1, (limite_lido_stored w1 _ Hb Hs).
      cbn [cfg_valor]. by rewrite Hp.
Qed.

Lemma non_finite_reads_back_NaN_witness :
  (obterConfigRodada "r1" (salvarConfigRodada "r1" (Infinity false) mundo_vazio).2).1
  = Returned (Some {| numeroPizzasPlanejadas := NaN; tempoLimitePorPizza := Int 0 |}).
Proof.
  apply (proj1 (non_finite_reads_back_NaN "r1" (Infinity false) mundo_vazio
                  (salvarConfigRodada "r1" (Infinity false) mundo_vazio).2 I eq_refl)).
  reflexivity.
Defined.

(** *** What is read from a stored string *)

Lemma trimStart_espacos ws s : soEspacos ws = true -> trimStart (ws +:+ s) = trimStart s.
Proof.
  induction ws as [|c ws IH]; intros H; [reflexivity|].
  cbn [soEspacos] in H. apply andb_true_iff in H as [Hc Hws].
  change (trimStart (String c ws +:+ s))
    with (if isWhiteSpace c then trimStart (ws +:+ s) else String c (ws +:+ s)).
  rewrite Hc. by apply IH.
Qed.

Lemma append_cons c (s t : string) : String c s +:+ t = String c (s +:+ t).
Proof. reflexivity. Qed.

Lemma append_empty (t : string) : EmptyString +:+ t = t.
Proof. reflexivity. Qed.

Lemma digitsToString_cons d ds :
  digitsToString (d :: ds) = String (digitChar d) (digitsToString ds).
Proof. reflexivity. Qed.

Lemma digitPrefix_cons c s :
  digitPrefix 10 (String c s)
  = match radixDigit 10 c with Some d => d :: digitPrefix 10 s | None => [] end.
Proof. reflexivity. Qed.

Lemma digitPrefix_then_text ds suffix :
  Forall digit ds -> semDigitoInicial suffix = true ->
  digitPrefix 10 (digitsToString ds +:+ suffix) = ds.
Proof.
  intros HF Hs. induction HF as [|d ds Hd _ IH].
  - change (digitsToString []) with EmptyString. rewrite append_empty.
    destruct suffix as [|c rest]; [reflexivity|].
    cbn [semDigitoInicial] in Hs. apply negb_true_iff in Hs.
    by rewrite digitPrefix_cons, (radixDigit_not_digit c Hs).
  - rewrite digitsToString_cons, append_cons, digitPrefix_cons.
    destruct (digitChar_plain d Hd) as (_ & _ & _ & _ & ->). by rewrite IH.
Qed.

Lemma digitChar_not_zero d :
  digit d -> 1 <= d -> (charCode (digitChar d) =? 48) = false.
Proof. intros H H1. digit_cases d H; try reflexivity; lia. Qed.

Lemma parseInt_lenient ws d ds suffix :
  soEspacos ws = true -> Forall digit (d :: ds) -> 1 <= d ->
  semDigitoInicial suffix = true ->
  parseInt (ws +:+ digitsToString (d :: ds) +:+ suffix) = F (mathInt 10 (d :: ds)).
Proof.
  intros Hws HF H1 Hs. pose proof (digitPrefix_then_text _ _ HF Hs) as Hdp.
  apply Forall_cons in HF as [Hd _].
  destruct (digitChar_plain d Hd) as (Hw & Hm & Hp & _ & _).
  unfold parseInt. rewrite (trimStart_espacos _ _ Hws).
  rewrite digitsToString_cons, append_cons in Hdp |- *.
  cbn [trimStart]. rewrite Hw. cbn [splitSign]. rewrite Hm, Hp.
  assert (Hst : stripPrefix (String (digitChar d) (digitsToString ds +:+ suffix))
                = (10, String (digitChar d) (digitsToString ds +:+ suffix))).
  { unfold stripPrefix. destruct (digitsToString ds +:+ suffix); [reflexivity|].
    by rewrite (digitChar_not_zero d Hd H1). }
  rewrite Hst, Hdp. by rewrite Z.mul_1_l.
Qed.

(** X13. Stored values are read leniently: a value made of white space, a
    decimal numeral that does not begin with 0, and then any text that does
    not begin with a digit (nothing, a unit, a decimal part) is read as the
    numeral alone, for the round's configuration and for the limit. *)
Theorem stored_values_read_leniently (rodadaId : string) (w : world) (c : configuracao)
    (ws : string) (d : Z) (ds : list Z) (suffix : string) :
  behaviour_at 0 w = Answers ->
  cfg_valor c = ws +:+ digitsToString (d :: ds) +:+ suffix ->
  soEspacos ws = true -> Forall digit (d :: ds) -> 1 <= d ->
  semDigitoInicial suffix = true ->
  (configuracoes (db w) !! chaveRodada rodadaId = Some c ->
   (obterConfigRodada rodadaId w).1
   = Returned (Some {| numeroPizzasPlanejadas := F (mathInt 10 (d :: ds));
                       tempoLimitePorPizza := Int 0 |})) /\
  (configuracoes (db w) !! "limite_total_rodadas" = Some c ->
   (obterLimiteRodadas w).1 = Returned (F (mathInt 10 (d :: ds)))).
Proof.
  intros Hb Hv Hws HF H1 Hs.
  pose proof (parseInt_lenient ws d ds suffix Hws HF H1 Hs) as Hp. rewrite <- Hv in Hp.
  split; intros Hl.
  - by rewrite (obterConfigRodada_especifica _ _ _ Hb Hl), Hp.
  - by rewrite (obterLimiteRodadas_stored _ _ Hb Hl), Hp.
Qed.

Lemma stored_values_read_leniently_witness :
  (obterConfigRodada "r1" mundo_texto).1
  = Returned (Some {| numeroPizzasPlanejadas := Int 12; tempoLimitePorPizza := Int 0 |}) /\
  (obterLimiteRodadas mundo_texto).1 = Returned (Int 7).
Proof.
  assert (D : forall x, (0 <=? x) && (x <=? 9) = true -> digit x).
  { intros x H. apply andb_true_iff in H as [H1 H2].
    apply Z.leb_le in H1, H2. by split. }
  split.
  - apply (proj1 (stored_values_read_leniently "r1" mundo_texto
                    (Configuracao " 12 pizzas" "teste") " " 1 [2] " pizzas"
                    eq_refl eq_refl eq_refl
                    (Forall_cons_2 _ _ _ (D 1 eq_refl) (Forall_cons_2 _ _ _ (D 2 eq_refl)
                                                          (Forall_nil_2 _)))
                    ltac:(lia) eq_refl)).
    reflexivity.
  - apply (proj2 (stored_values_read_leniently "r1" mundo_texto
                    (Configuracao "7.5" "limite") EmptyString 7 [] ".5"
                    eq_refl eq_refl eq_refl
                    (Forall_cons_2 _ _ _ (D 7 eq_refl) (Forall_nil_2 _))
                    ltac:(lia) eq_refl)).
    reflexivity.
Defined.

End Extra.
